(** * RepoDocAI front end: a shallow embedding of the TypeScript components

    The components embedded here are the review parser of [AICodeReview],
    the submit handler of the landing page ([Home.handleSubmit]), the
    status poller and the tab renderer of [GeneratePage], the placeholder of
    [DocViewer], the bar widths of [ComplexityDashboard] and the colour and
    arc of [HealthScoreGauge].

    JavaScript strings are sequences of UTF-16 code units, modelled as
    [list N]; objects used as maps are [gmap]s together with the properties
    they inherit from [Object.prototype]. *)

From Stdlib Require Import NArith ZArith QArith Lqa Lia List Ascii String.
From stdpp Require Import base decidable option list countable gmap.

Set Default Proof Using "Type".

(* ===================================================================== *)
(** * Part I: the model                                                   *)
(* ===================================================================== *)

(** ** JavaScript strings *)
Module JS.

(** A string value: its UTF-16 code units. *)
Abbreviation jsstring := (list N).

(** A source literal (ASCII only) as a string value. *)
Definition lit (s : string) : jsstring :=
  List.map N_of_ascii (list_ascii_of_string s).

(** ECMAScript LineTerminator: LF, CR, LS, PS. *)
Definition is_line_terminator (c : N) : bool :=
  ((c =? 10) || (c =? 13) || (c =? 8232) || (c =? 8233))%N.

(** ECMAScript WhiteSpace together with LineTerminator: the code units that
    [String.prototype.trim] strips and that the class [\s] matches. *)
Definition is_ws (c : N) : bool :=
  ((c =? 9) || (c =? 11) || (c =? 12) || (c =? 32) || (c =? 160)
   || (c =? 5760) || ((8192 <=? c) && (c <=? 8202))
   || (c =? 8239) || (c =? 8287) || (c =? 12288) || (c =? 65279))%N
  || is_line_terminator c.

(** The class [\d]. *)
Definition is_digit (c : N) : bool := ((48 <=? c) && (c <=? 57))%N.

(** The class [.] (no [s] flag): anything but a line terminator. *)
Definition is_dot (c : N) : bool := negb (is_line_terminator c).

(** [ToBoolean] on a string: the empty string is the only falsy one. *)
Definition truthy (s : jsstring) : bool :=
  match s with [] => false | _ :: _ => true end.

Fixpoint trimStart (s : jsstring) : jsstring :=
  match s with
  | c :: s' => if is_ws c then trimStart s' else s
  | [] => []
  end.

Definition trimEnd (s : jsstring) : jsstring :=
  reverse (trimStart (reverse s)).

(** [String.prototype.trim]. *)
Definition trim (s : jsstring) : jsstring := trimEnd (trimStart s).

(** [s.startsWith(p)]. *)
Fixpoint startsWith (p s : jsstring) : bool :=
  match p, s with
  | [], _ => true
  | a :: p', b :: s' => (a =? b)%N && startsWith p' s'
  | _ :: _, [] => false
  end.

(** [s.includes(p)]: [p] occurs at some position of [s]. *)
Fixpoint includes (s p : jsstring) : bool :=
  startsWith p s ||
  match s with
  | [] => false
  | _ :: s' => includes s' p
  end.

(** The text before and after the leftmost occurrence of [sep] in [s]. *)
Fixpoint cut (sep s : jsstring) : option (jsstring * jsstring) :=
  if startsWith sep s then Some ([], drop (length sep) s)
  else match s with
       | [] => None
       | c :: s' =>
           match cut sep s' with
           | Some (a, b) => Some (c :: a, b)
           | None => None
           end
       end.

(** The loop of [String.prototype.split] for a non-empty separator: cut at
    the leftmost occurrence and go on behind it.  Every cut consumes at
    least one code unit, so [n] cuts suffice for a string of [n] units. *)
Fixpoint split_loop (n : nat) (sep s : jsstring) : list jsstring :=
  match n with
  | O => [s]
  | S n' =>
      match cut sep s with
      | Some (a, b) => a :: split_loop n' sep b
      | None => [s]
      end
  end.

(** [s.split(sep)] for a non-empty separator string. *)
Definition split (sep s : jsstring) : list jsstring :=
  split_loop (length s) sep s.

(** [parts.join(sep)]. *)
Fixpoint join (sep : jsstring) (parts : list jsstring) : jsstring :=
  match parts with
  | [] => []
  | [p] => p
  | p :: ps => p ++ sep ++ join sep ps
  end.

(** [parseInt] on a run of decimal digits (what [\d+] captures): the
    number the digits denote.  A [number] is a double, which holds every
    integer below 2^53 exactly; the model keeps the exact value. *)
Definition digit_val (c : N) : N := (c - 48)%N.

Definition parseInt (digits : jsstring) : N :=
  fold_left (fun acc c => (10 * acc + digit_val c)%N) digits 0%N.

End JS.

(** ** The regular expressions of the review parser

    The three patterns of [parseSection] are sequences of single code-unit
    atoms and of quantified classes ([+], [*], [+?], [*?]), some of them
    captured, with at most a leading [^].  The matcher below is the
    backtracking matcher of ECMAScript restricted to that fragment: a
    greedy quantifier first tries to take one more code unit, a lazy one
    first tries to stop, and the leftmost start position that matches
    wins. *)
Module Regex.
Import JS.

Inductive atom :=
| Chr (cls : N -> bool)
| Rep (cap : option nat) (greedy : bool) (min : nat) (cls : N -> bool).

Record regex := { anchored : bool; body : list atom }.

(** The capture groups that took part in a match, by group number. *)
Abbreviation captures := (gmap nat jsstring).

Definition record (cap : option nat) (taken : jsstring) (caps : captures)
  : captures :=
  match cap with
  | Some i => <[i := taken]> caps
  | None => caps
  end.

(** [cls{min,}] against [s], then the continuation [k taken rest];
    [acc] holds the units taken so far, latest first. *)
Fixpoint rep {A} (greedy : bool) (cls : N -> bool) (min : nat)
    (acc s : jsstring) (k : jsstring -> jsstring -> option A) : option A :=
  let stop := match min with O => k (reverse acc) s | S _ => None end in
  let more :=
    match s with
    | c :: s' => if cls c then rep greedy cls (pred min) (c :: acc) s' k
                 else None
    | [] => None
    end in
  if greedy
  then match more with Some r => Some r | None => stop end
  else match stop with Some r => Some r | None => more end.

(** The atoms of [p] against a prefix of [s]. *)
Fixpoint run (p : list atom) (s : jsstring) (caps : captures)
  : option captures :=
  match p with
  | [] => Some caps
  | Chr cls :: p' =>
      match s with
      | c :: s' => if cls c then run p' s' caps else None
      | [] => None
      end
  | Rep cap greedy min cls :: p' =>
      rep greedy cls min [] s
          (fun taken rest => run p' rest (record cap taken caps))
  end.

(** The leftmost start position at which [p] matches. *)
Fixpoint search (p : list atom) (s : jsstring) : option captures :=
  match run p s ∅ with
  | Some caps => Some caps
  | None => match s with
            | [] => None
            | _ :: s' => search p s'
            end
  end.

(** [s.match(r)] for a pattern without the [g] flag: the captures of the
    first match, or [None] for [null]. *)
Definition exec (r : regex) (s : jsstring) : option captures :=
  if anchored r then run (body r) s ∅ else search (body r) s.

(** [m[i]] for a group that took part in the match. *)
Definition group (i : nat) (caps : captures) : jsstring :=
  default [] (caps !! i).

(** One literal code unit. *)
Definition ch (a : ascii) : atom := Chr (N.eqb (N_of_ascii a)).

(** One letter under the [i] flag: Canonicalize maps a code unit to its
    upper case, except that a unit of 128 or more never folds to one below
    128, so an ASCII letter is matched by its two cases only. *)
Definition ci (lower upper : ascii) : atom :=
  Chr (fun c => (c =? N_of_ascii lower)%N || (c =? N_of_ascii upper)%N).

(** The shared tail [(\d+)\s*\/\s*10], the digits captured as group [i]. *)
Definition score_tail (i : nat) : list atom :=
  [ Rep (Some i) true 1 is_digit; Rep None true 0 is_ws; ch "/";
    Rep None true 0 is_ws; ch "1"; ch "0" ].

End Regex.

(** ** AICodeReview.tsx *)
Module AICodeReview.
Import JS Regex.

Definition REVIEW_BREAK : jsstring := lit "---REVIEW_BREAK---".

(** [/\*\*(.+?)\*\*.*?(\d+)\s*\/\s*10/] *)
Definition titleRe : regex :=
  {| anchored := false;
     body := [ ch "*"; ch "*"; Rep (Some 1) false 1 is_dot; ch "*"; ch "*";
               Rep None false 0 is_dot ] ++ score_tail 2 |}.

(** [/^#+\s*(.+)/] *)
Definition headingRe : regex :=
  {| anchored := true;
     body := [ Rep None true 1 (N.eqb 35); Rep None true 0 is_ws;
               Rep (Some 1) true 1 is_dot ] |}.

(** [/Score.*?(\d+)\s*\/\s*10/i] *)
Definition scoreRe : regex :=
  {| anchored := false;
     body := [ ci "s" "S"; ci "c" "C"; ci "o" "O"; ci "r" "R"; ci "e" "E";
               Rep None false 0 is_dot ] ++ score_tail 1 |}.

(** [s.replace(/\*\*/g, empty)]: every pair of stars is dropped, left to
    right. *)
Fixpoint removeBold (s : jsstring) : jsstring :=
  match s with
  | a :: t =>
      match t with
      | b :: s' => if ((a =? 42) && (b =? 42))%N then removeBold s'
                   else a :: removeBold t
      | [] => [a]
      end
  | [] => []
  end.

(** [const sections = review.split("---REVIEW_BREAK---").filter((s) => s.trim())] *)
Definition sections (review : jsstring) : list jsstring :=
  filter (fun s => truthy (trim s)) (split REVIEW_BREAK review).

Record Parsed := { title : jsstring; score : option N; content : jsstring }.

(** The [for (const line of lines)] loop of [parseSection], on the lines
    still to visit and the current values of [title] and [score]. *)
Fixpoint scanLines (lines : list jsstring) (title : jsstring)
    (score : option N) : jsstring * option N :=
  match lines with
  | [] => (title, score)
  | line :: rest =>
      match exec titleRe line with
      | Some titleMatch =>
          (* title = titleMatch[1]; score = parseInt(titleMatch[2]); break *)
          (group 1 titleMatch, Some (parseInt (group 2 titleMatch)))
      | None =>
          let title' :=
            match exec headingRe line with
            | Some headingMatch =>
                (* if (headingMatch && !title) *)
                if negb (truthy title) then removeBold (group 1 headingMatch)
                else title
            | None => title
            end in
          let score' :=
            match exec scoreRe line with
            | Some scoreMatch => Some (parseInt (group 1 scoreMatch))
            | None => score
            end in
          scanLines rest title' score'
      end
  end.

(** The lines [parseSection] visits: [text.trim().split("\n")]. *)
Definition linesOf (text : jsstring) : list jsstring :=
  split [10%N] (trim text).

Definition parseSection (text : jsstring) : Parsed :=
  let '(title, score) := scanLines (linesOf text) (lit "Review") None in
  {| title := title; score := score; content := trim text |}.

(** [const parsed = sections.map(parseSection)] *)
Definition parsed (review : jsstring) : list Parsed :=
  parseSection <$> sections review.

(** The score-card grid: [parsed.length > 1 && (<div> ... </div>)], one
    card per element of [parsed.filter((p) => p.score !== null).slice(0, 5)];
    [None] when the grid is not rendered. *)
Definition scoreCards (parsed : list Parsed) : option (list Parsed) :=
  if decide (1 < length parsed)
  then Some (take 5 (filter (fun p => score p <> None) parsed))
  else None.

(** [getScoreColor] *)
Definition getScoreColor (score : option N) : jsstring :=
  match score with
  | None => lit "#888"
  | Some s =>
      if (8 <=? s)%N then lit "#22c55e"
      else if (6 <=? s)%N then lit "#eab308"
      else if (4 <=? s)%N then lit "#f97316"
      else lit "#ef4444"
  end.

(** The emoji of [getScoreEmoji], as their UTF-16 code units. *)
Definition clipboardEmoji : jsstring := [55357; 56523]%N.
Definition trophyEmoji : jsstring := [55356; 57286]%N.
Definition checkEmoji : jsstring := [9989]%N.
Definition warningEmoji : jsstring := [9888; 65039]%N.
Definition sirenEmoji : jsstring := [55357; 57000]%N.

(** [getScoreEmoji] *)
Definition getScoreEmoji (score : option N) : jsstring :=
  match score with
  | None => clipboardEmoji
  | Some s =>
      if (9 <=? s)%N then trophyEmoji
      else if (7 <=? s)%N then checkEmoji
      else if (5 <=? s)%N then warningEmoji
      else sirenEmoji
  end.

End AICodeReview.

(** ** app/page.tsx: the landing page *)
Module Home.
Import JS.

Record State := { repoUrl : jsstring; loading : bool; error : jsstring }.

(** The body of the create request is [{ repo_url }]. *)
Record Request := { url : jsstring; method : jsstring; repo_url : jsstring }.

(** What [await fetch(...)] and [await res.json()] can come to. *)
Inductive Reply :=
| Rejected (message : jsstring)   (* fetch or res.json() throws [err] *)
| NotOk                           (* [res.ok] is false *)
| Created (task_id : jsstring).   (* [data.task_id] *)

Record Outcome :=
  { state : State; requests : list Request; pushed : option jsstring }.

Definition invalidUrl : jsstring :=
  lit "Please enter a valid GitHub repository URL".

(** [err.message || "Something went wrong"] *)
Definition errorText (message : jsstring) : jsstring :=
  if truthy message then message else lit "Something went wrong".

Definition failed (st : State) (req : Request) (message : jsstring)
  : Outcome :=
  {| state := {| repoUrl := repoUrl st; loading := false;
                 error := errorText message |};
     requests := [req]; pushed := None |}.

(** [handleSubmit]: the state it leaves, the requests it issued and the
    route it pushed, for a server that answers the create request by
    [server]. *)
Definition handleSubmit (st : State) (server : Request -> Reply) : Outcome :=
  if negb (truthy (trim (repoUrl st)))
  then {| state := st; requests := []; pushed := None |}
  else if negb (includes (repoUrl st) (lit "github.com"))
  then {| state := {| repoUrl := repoUrl st; loading := loading st;
                      error := invalidUrl |};
          requests := []; pushed := None |}
  else
    let req := {| url := lit "/api/generate"; method := lit "POST";
                  repo_url := trim (repoUrl st) |} in
    match server req with
    | Created task_id =>
        {| state := {| repoUrl := repoUrl st; loading := true; error := [] |};
           requests := [req];
           pushed := Some (lit "/generate/" ++ task_id) |}
    | NotOk => failed st req (lit "Failed to start generation")
    | Rejected message => failed st req message
    end.

End Home.

(** ** components/DocViewer.tsx *)
Module DocViewer.
Import JS.

(** What a tab of the results page shows. *)
Inductive Node :=
| Markdown (content : jsstring)      (* <ReactMarkdown>{content}</ReactMarkdown> *)
| Italic (text : jsstring)           (* <p className="... italic">text</p> *)
| Pre (text : jsstring)              (* <pre>text</pre> *)
| Card (title : option jsstring) (body : Node)
| Child (component : jsstring).      (* another component of the page *)

(** [ToBoolean] on a string that may be [null] or [undefined]. *)
Definition present (v : option jsstring) : bool :=
  match v with Some s => truthy s | None => false end.

(** [v || fallback] *)
Definition orElse (v : option jsstring) (fallback : jsstring) : jsstring :=
  match v with
  | Some s => if truthy s then s else fallback
  | None => fallback
  end.

Definition noContent : jsstring := lit "No content available.".

Definition DocViewer (content : option jsstring) : Node :=
  match content with
  | Some s => if truthy s then Markdown s else Italic noContent
  | None => Italic noContent
  end.

End DocViewer.

(** ** app/generate/[taskId]/page.tsx: the results page *)
Module GeneratePage.
Import JS DocViewer.

Inductive Status :=
| pending | cloning | analyzing | generating | complete | error.

Record TaskStatus :=
  { status : Status; progress : Z; message : jsstring }.

Record DocSection :=
  { title : option jsstring; content : option jsstring; order : Z }.

(** The fields of [GeneratedDocs] that the text tabs read; a field that is
    [null], [undefined] or missing from the JSON is [None]. *)
Record GeneratedDocs :=
  { repo_name : option jsstring;
    overview : option jsstring;
    sections : list DocSection;
    tech_stack : option jsstring;
    setup_guide : option jsstring;
    api_docs : option jsstring;
    full_markdown : option jsstring;
    contributing_md : option jsstring;
    ai_code_review : option jsstring }.

(** *** The polling effect *)

Inductive Request :=
| GetStatus (taskId : jsstring)     (* fetch(`/api/status/${taskId}`) *)
| GetResult (taskId : jsstring).    (* fetch(`/api/result/${taskId}`) *)

(** What a status request comes to: an exception ([fetch] or [res.json()]
    throws), a response that is not [ok], or the task status. *)
Inductive StatusReply := SThrows | SNotOk | SOk (data : TaskStatus).

(** The same for the result request, [resultData.result] on success. *)
Inductive ResultReply := RThrows | RNotOk | ROk (result : GeneratedDocs).

(** The component between two events of the browser: its [taskId], its
    [status] and [docs] state, the value of [status.status] for which the
    polling effect last ran (its dependency), the interval that effect
    holds if it is live, the callbacks of the interval that await the
    reply to their status request (each with the interval of its closure),
    the number of callbacks that await the reply to their result request,
    and the requests issued so far, oldest first. *)
Record Page :=
  { taskId : jsstring;
    current : TaskStatus;
    docs : option GeneratedDocs;
    effectStatus : Status;
    interval : option nat;
    nextHandle : nat;
    awaitingStatus : list nat;
    awaitingResult : nat;
    issued : list Request }.

Definition terminal (s : Status) : bool :=
  match s with
  | complete | error => true
  | _ => false
  end.

Definition Status_eqb (a b : Status) : bool :=
  match a, b with
  | pending, pending | cloning, cloning | analyzing, analyzing
  | generating, generating | complete, complete | error, error => true
  | _, _ => false
  end.

(** The body of [useEffect]: whether it sets an interval.
    [if (!taskId) return; if (status.status === "complete" ||
    status.status === "error") return;] *)
Definition pollEffect (taskId : jsstring) (s : Status) : bool :=
  if negb (truthy taskId) then false
  else if terminal s then false
  else true.

(** The first render: [useState] defaults, then the effect. *)
Definition mount (taskId : jsstring) : Page :=
  {| taskId := taskId;
     current := {| status := pending; progress := 0;
                   message := lit "Starting..." |};
     docs := None;
     effectStatus := pending;
     interval := if pollEffect taskId pending then Some 0 else None;
     nextHandle := if pollEffect taskId pending then 1 else 0;
     awaitingStatus := [];
     awaitingResult := 0;
     issued := [] |}.

(** What the browser can do next.  The callback of the interval is
    [async] and nothing keeps a second firing from starting while the
    first awaits its reply, so the replies arrive in any order. *)
Inductive Event :=
| Fire                                          (* the timer of the interval fires *)
| StatusArrives (i : nat) (reply : StatusReply) (* the i-th awaited status reply *)
| ResultArrives (reply : ResultReply)           (* an awaited result reply *)
| Render.                                       (* React renders and runs the effects *)

(** [clearInterval(h)] on the live interval. *)
Definition clearInterval (h : nat) (live : option nat) : option nat :=
  match live with
  | Some h' => if (h =? h')%nat then None else Some h'
  | None => None
  end.

(** The timer of a live interval fires: its callback starts and asks for
    the status. *)
Definition fire (p : Page) : Page :=
  match interval p with
  | Some h =>
      {| taskId := taskId p; current := current p; docs := docs p;
         effectStatus := effectStatus p; interval := interval p;
         nextHandle := nextHandle p;
         awaitingStatus := awaitingStatus p ++ [h];
         awaitingResult := awaitingResult p;
         issued := issued p ++ [GetStatus (taskId p)] |}
  | None => p
  end.

(** The callback that awaits the [i]-th status reply goes on: unless the
    request failed it calls [setStatus(data)], and on [complete] it clears
    the interval of its closure and asks for the result. *)
Definition statusArrives (p : Page) (i : nat) (reply : StatusReply) : Page :=
  match awaitingStatus p !! i with
  | None => p
  | Some h =>
      match reply with
      | SThrows | SNotOk =>
          {| taskId := taskId p; current := current p; docs := docs p;
             effectStatus := effectStatus p; interval := interval p;
             nextHandle := nextHandle p;
             awaitingStatus := delete i (awaitingStatus p);
             awaitingResult := awaitingResult p;
             issued := issued p |}
      | SOk data =>
          if Status_eqb (status data) complete
          then
            {| taskId := taskId p; current := data; docs := docs p;
               effectStatus := effectStatus p;
               interval := clearInterval h (interval p);
               nextHandle := nextHandle p;
               awaitingStatus := delete i (awaitingStatus p);
               awaitingResult := S (awaitingResult p);
               issued := issued p ++ [GetResult (taskId p)] |}
          else
            {| taskId := taskId p; current := data; docs := docs p;
               effectStatus := effectStatus p; interval := interval p;
               nextHandle := nextHandle p;
               awaitingStatus := delete i (awaitingStatus p);
               awaitingResult := awaitingResult p;
               issued := issued p |}
      end
  end.

(** A callback that awaits a result reply goes on: [setDocs] if the
    response is [ok]. *)
Definition resultArrives (p : Page) (reply : ResultReply) : Page :=
  match awaitingResult p with
  | O => p
  | S n =>
      {| taskId := taskId p; current := current p;
         docs := match reply with
                 | ROk result => Some result
                 | RThrows | RNotOk => docs p
                 end;
         effectStatus := effectStatus p; interval := interval p;
         nextHandle := nextHandle p;
         awaitingStatus := awaitingStatus p;
         awaitingResult := n;
         issued := issued p |}
  end.

(** A render: the effect depends on [[taskId, status.status]], so when
    the status differs from the one it last ran for, its cleanup clears
    the interval and its body runs again. *)
Definition render (p : Page) : Page :=
  if Status_eqb (effectStatus p) (status (current p)) then p
  else
    let again := pollEffect (taskId p) (status (current p)) in
    {| taskId := taskId p; current := current p; docs := docs p;
       effectStatus := status (current p);
       interval := if again then Some (nextHandle p) else None;
       nextHandle := if again then S (nextHandle p) else nextHandle p;
       awaitingStatus := awaitingStatus p;
       awaitingResult := awaitingResult p;
       issued := issued p |}.

Definition step (p : Page) (e : Event) : Page :=
  match e with
  | Fire => fire p
  | StatusArrives i reply => statusArrives p i reply
  | ResultArrives reply => resultArrives p reply
  | Render => render p
  end.

(** The page after the events, oldest first. *)
Definition run (p : Page) (events : list Event) : Page :=
  fold_left step events p.

(** *** The tabs *)

Inductive Tab :=
| overviewTab | techstackTab | setupTab | apiTab | sectionsTab
| markdownTab | contributingTab | reviewTab.

(** The content area for the active tab. *)
Definition renderTab (activeTab : Tab) (d : GeneratedDocs) : list Node :=
  match activeTab with
  | overviewTab => [DocViewer (overview d)]
  | techstackTab =>
      [DocViewer (Some (orElse (tech_stack d)
                          (lit "No tech stack information generated.")))]
  | setupTab =>
      [DocViewer (Some (orElse (setup_guide d)
                          (lit "No setup guide generated.")))]
  | apiTab =>
      [DocViewer (Some (orElse (api_docs d)
                 (lit "No API documentation detected for this project.")))]
  | sectionsTab =>
      (fun sec => Card (title sec) (DocViewer (content sec))) <$> sections d
  | markdownTab =>
      [Pre (orElse (full_markdown d) (lit "Markdown not available."))]
  | contributingTab =>
      if present (contributing_md d)
      then [Card (Some (lit "CONTRIBUTING.md"))
                 (DocViewer (contributing_md d))]
      else []
  | reviewTab =>
      if present (ai_code_review d) then [Child (lit "AICodeReview")]
      else []
  end.

(** *** The progress view, the views of the page and the copy button *)

(** [order.indexOf(s)]: the first position of [s], or -1. *)
Fixpoint indexOf (l : list Status) (s : Status) : Z :=
  match l with
  | [] => (-1)%Z
  | x :: l' =>
      if Status_eqb x s then 0%Z
      else let i := indexOf l' s in
           if (i <? 0)%Z then (-1)%Z else (i + 1)%Z
  end.

(** [const order = ["cloning", "analyzing", "generating", "complete"]] *)
Definition stepOrder : list Status :=
  [cloning; analyzing; generating; complete].

Inductive Mark := Done | Current | Upcoming.

(** The mark of one step of the list: [isDone ? ... : isCurrent ? ... : ...]
    with [isDone = stepIdx < currentIdx], [isCurrent = stepIdx === currentIdx]. *)
Definition stepMark (shown step : Status) : Mark :=
  let currentIdx := indexOf stepOrder shown in
  let stepIdx := indexOf stepOrder step in
  if (stepIdx <? currentIdx)%Z then Done
  else if (stepIdx =? currentIdx)%Z then Current
  else Upcoming.

(** The steps listed under the progress bar, each with its mark. *)
Definition stepList (shown : Status) : list (Status * Mark) :=
  (fun step => (step, stepMark shown step)) <$> stepOrder.

(** What the component returns. *)
Inductive View :=
| ProgressView (shown : TaskStatus) (steps : list (Status * Mark))
| ErrorView (message : jsstring)              (* Generation Failed *)
| LoadingResults                              (* Loading results... *)
| DocsView (d : GeneratedDocs).               (* header, tabs, content *)

Definition view (p : Page) : View :=
  match status (current p) with
  | complete =>
      match docs p with
      | None => LoadingResults
      | Some d => DocsView d
      end
  | error => ErrorView (message (current p))
  | _ => ProgressView (current p) (stepList (status (current p)))
  end.

(** [copyMarkdown]: the text written to the clipboard, if any.
    [if (docs?.full_markdown) { navigator.clipboard.writeText(...) }] *)
Definition copyMarkdown (docs : option GeneratedDocs) : option jsstring :=
  match docs with
  | Some d => if present (full_markdown d) then full_markdown d else None
  | None => None
  end.

End GeneratePage.

(** ** components/ComplexityDashboard.tsx *)
Module ComplexityDashboard.
Import JS.

Record Language :=
  { language : jsstring; lines : Z; percentage : Q }.

(** [Math.max(...data.language_distribution.map((l) => l.lines), 1)]: the
    largest of the line counts and 1. *)
Definition maxLines (language_distribution : list Language) : Z :=
  fold_right Z.max 1%Z (lines <$> language_distribution).

(** The width of a bar in percent, [(l.lines / maxLines) * 100], in exact
    arithmetic. *)
Definition barWidth (language_distribution : list Language) (l : Language)
  : Q :=
  (inject_Z (lines l) / inject_Z (maxLines language_distribution)) * 100.

End ComplexityDashboard.

(** ** components/HealthScoreGauge.tsx *)
Module HealthScoreGauge.
Import JS.

(** The values a property read can give here. *)
Inductive value :=
| VString (s : jsstring)
| VFunction (name : jsstring)
| VObject
| VUndefined.

Definition ToBoolean (v : value) : bool :=
  match v with
  | VString s => truthy s
  | VFunction _ | VObject => true
  | VUndefined => false
  end.

(** The own properties of the object literal [gradeColors]. *)
Definition gradeColors : gmap jsstring jsstring :=
  list_to_map
    [ (lit "A+", lit "#00ff88"); (lit "A", lit "#22c55e");
      (lit "B", lit "#84cc16"); (lit "C", lit "#eab308");
      (lit "D", lit "#f97316"); (lit "F", lit "#ef4444") ].

(** The properties an object literal inherits from [Object.prototype]: its
    methods, and the accessor [__proto__], which gives the prototype
    object. *)
Definition Object_prototype : gmap jsstring value :=
  list_to_map
    ((lit "__proto__", VObject) ::
     ((fun name => (lit name, VFunction (lit name))) <$>
      [ "constructor"; "hasOwnProperty"; "isPrototypeOf";
        "propertyIsEnumerable"; "toLocaleString"; "toString"; "valueOf";
        "__defineGetter__"; "__defineSetter__"; "__lookupGetter__";
        "__lookupSetter__" ]%string)).

(** [obj[key]] on an object literal with own properties [own]: the own
    property, else the inherited one, else [undefined]. *)
Definition get (own : gmap jsstring jsstring) (key : jsstring) : value :=
  match own !! key with
  | Some s => VString s
  | None => default VUndefined (Object_prototype !! key)
  end.

(** [const color = gradeColors[data.grade] || "#888"] *)
Definition color (grade : jsstring) : value :=
  let v := get gradeColors grade in
  if ToBoolean v then v else VString (lit "#888").

(** [Math.PI], the double nearest to pi. *)
Definition Math_PI : Q := 884279719003555 # 281474976710656.

(** [2 * Math.PI * 80], in exact arithmetic. *)
Definition circumference : Q := 2 * Math_PI * 80.

(** [circumference - (data.score / 100) * circumference] *)
Definition offset (score : Q) : Q :=
  circumference - (score / 100) * circumference.

End HealthScoreGauge.

(** ** The health grade of the scoring engine *)
Module HealthScorer.

Inductive Grade := F | D | C | B | A | Aplus.

(** Modelled from the spec: the backend function that derives the grade of
    a health report from its score is not among the sources; the spec gives
    its thresholds as 95 for A+, 85 for A, 70 for B, 55 for C, 35 for D and F
    below. *)
Definition grade (s : Z) : Grade :=
  if (95 <=? s)%Z then Aplus
  else if (85 <=? s)%Z then A
  else if (70 <=? s)%Z then B
  else if (55 <=? s)%Z then C
  else if (35 <=? s)%Z then D
  else F.

(** The grades from worst to best. *)
Definition rank (g : Grade) : nat :=
  match g with
  | F => 0 | D => 1 | C => 2 | B => 3 | A => 4 | Aplus => 5
  end.

(** The band of scores of each grade, as a half-open interval
    [lower <= s < upper] within [0, 100]. *)
Definition lower (g : Grade) : Z :=
  match g with
  | F => 0 | D => 35 | C => 55 | B => 70 | A => 85 | Aplus => 95
  end.

Definition upper (g : Grade) : Z :=
  match g with
  | F => 35 | D => 55 | C => 70 | B => 85 | A => 95 | Aplus => 101
  end.

Definition in_band (g : Grade) (s : Z) : Prop :=
  (lower g <= s < upper g)%Z.

End HealthScorer.

(** ** components/BadgeWall.tsx *)
Module BadgeWall.
Import JS.

Record BadgeInfo :=
  { label : jsstring; message : jsstring; color : jsstring;
    markdown : jsstring }.

(** [s.slice(i, j)] for [0 <= i <= j]: both ends are clamped to the
    length. *)
Definition slice (s : jsstring) (i j : nat) : jsstring :=
  take (j - i) (drop i s).

(** The value of a hexadecimal digit. *)
Definition hexval (c : N) : option Z :=
  if ((48 <=? c) && (c <=? 57))%N then Some (Z.of_N c - 48)%Z
  else if ((97 <=? c) && (c <=? 102))%N then Some (Z.of_N c - 87)%Z
  else if ((65 <=? c) && (c <=? 70))%N then Some (Z.of_N c - 55)%Z
  else None.

(** The number denoted by the longest prefix of hexadecimal digits, after
    the digits [acc] already read; [None] when there is no digit at all. *)
Fixpoint hexDigits (s : jsstring) (acc : option Z) : option Z :=
  match s with
  | c :: s' =>
      match hexval c with
      | Some d => hexDigits s' (Some (16 * default 0%Z acc + d)%Z)
      | None => acc
      end
  | [] => acc
  end.

(** [parseInt(s, 16)]: leading white space is skipped, then a sign, then
    an optional [0x] or [0X]; the digits up to the first other code unit
    are read; [None] is [NaN]. *)
Definition parseInt16 (s : jsstring) : option Z :=
  let s1 := trimStart s in
  let '(sign, s2) :=
    match s1 with
    | c :: r => if (c =? 45)%N then ((-1)%Z, r)
                else if (c =? 43)%N then (1%Z, r)
                else (1%Z, s1)
    | [] => (1%Z, s1)
    end in
  let s3 :=
    match s2 with
    | a :: b :: r =>
        if ((a =? 48) && ((b =? 120) || (b =? 88)))%N then r else s2
    | _ => s2
    end in
  match hexDigits s3 None with
  | Some n => Some (sign * n)%Z
  | None => None
  end.

(** [parseInt(b.color.slice(i, i + 2), 16) || 100]: [NaN] and zero are
    falsy. *)
Definition channel (color : jsstring) (i : nat) : Z :=
  match parseInt16 (slice color i (i + 2)) with
  | Some z => if (z =? 0)%Z then 100%Z else z
  | None => 100%Z
  end.

(** The three numbers of the [rgba(...)] glow of a badge. *)
Definition glow (b : BadgeInfo) : Z * Z * Z :=
  (channel (color b) 0, channel (color b) 2, channel (color b) 4).

(** The text of the button Copy All Badges:
    [badges.map((b) => b.markdown).join("\n")] *)
Definition copyAll (badges : list BadgeInfo) : jsstring :=
  join [10%N] (markdown <$> badges).

End BadgeWall.

(** ** components/MermaidDiagram.tsx *)
Module MermaidDiagram.
Import JS.

(** [useId().replace(/:/g, "m")]: every colon becomes the letter m. *)
Definition sanitizeId (id : jsstring) : jsstring :=
  (fun c => if (c =? 58)%N then 109%N else c) <$> id.

(** The element id handed to [mermaid.render]: [`mermaid-${id}`]. *)
Definition renderId (id : jsstring) : jsstring :=
  lit "mermaid-" ++ sanitizeId id.

End MermaidDiagram.

(** ** Vocabulary of the properties *)
Module Props.
Import JS Regex.

(** A string with a code unit that is not white space. *)
Definition nonblank (s : jsstring) : Prop :=
  Exists (fun c => is_ws c = false) s.

(** The last quantified class of [p] captured as group [i], with its
    minimum. *)
Fixpoint capturing (i : nat) (p : list atom) : option (nat * (N -> bool)) :=
  match p with
  | [] => None
  | a :: p' =>
      match capturing i p' with
      | Some x => Some x
      | None =>
          match a with
          | Rep (Some j) _ min cls =>
              if decide (i = j) then Some (min, cls) else None
          | _ => None
          end
      end
  end.

(** A line on which neither score pattern of the review parser matches. *)
Definition unscored (line : jsstring) : Prop :=
  exec AICodeReview.titleRe line = None
  /\ exec AICodeReview.scoreRe line = None.

(** The digits a score pattern captured on [line]. *)
Definition scored (line digits : jsstring) : Prop :=
  exists m,
    (exec AICodeReview.titleRe line = Some m /\ m !! 2 = Some digits)
    \/ (exec AICodeReview.scoreRe line = Some m /\ m !! 1 = Some digits).

(** On the results page a live interval was set by an effect that ran
    for a task id and a status that is not terminal. *)
Definition consistent (p : GeneratePage.Page) : Prop :=
  forall h, GeneratePage.interval p = Some h ->
    GeneratePage.terminal (GeneratePage.effectStatus p) = false
    /\ truthy (GeneratePage.taskId p) = true.

(** A page at rest: no interval, no callback awaiting a reply, and the
    effect has run for the status shown. *)
Definition atRest (p : GeneratePage.Page) : Prop :=
  GeneratePage.interval p = None
  /\ GeneratePage.awaitingStatus p = []
  /\ GeneratePage.awaitingResult p = 0
  /\ GeneratePage.effectStatus p
     = GeneratePage.status (GeneratePage.current p).

Definition isStatusRequest (r : GeneratePage.Request) : bool :=
  match r with GeneratePage.GetStatus _ => true | _ => false end.

Definition isResultRequest (r : GeneratePage.Request) : bool :=
  match r with GeneratePage.GetResult _ => true | _ => false end.

Definition isFire (e : GeneratePage.Event) : bool :=
  match e with GeneratePage.Fire => true | _ => false end.

(** How many elements of a list pass a test. *)
Definition count {A} (f : A -> bool) (l : list A) : nat :=
  length (filter (fun x => f x) l).

(** The place of a status in the pipeline. *)
Definition stage (s : GeneratePage.Status) : nat :=
  match s with
  | GeneratePage.pending => 0
  | GeneratePage.cloning => 1
  | GeneratePage.analyzing => 2
  | GeneratePage.generating => 3
  | GeneratePage.complete => 4
  | GeneratePage.error => 5
  end.

(** A small bundle, for examples. *)
Definition sampleDocs : GeneratePage.GeneratedDocs :=
  {| GeneratePage.repo_name := Some (lit "owner/repo");
     GeneratePage.overview := Some (lit "# Repo");
     GeneratePage.sections := [];
     GeneratePage.tech_stack := None;
     GeneratePage.setup_guide := None;
     GeneratePage.api_docs := None;
     GeneratePage.full_markdown := Some (lit "# Repo");
     GeneratePage.contributing_md := None;
     GeneratePage.ai_code_review := None |}.

End Props.

Import Props.

(* ===================================================================== *)
(** * Part II: properties                                                 *)
(* ===================================================================== *)

(** ** Strings: trim, includes, split *)
Section Strings.
Import JS.

Lemma truthy_reverse (s : jsstring) : truthy (reverse s) = truthy s.
Proof.
  destruct s as [|c s]; [reflexivity|].
  rewrite reverse_cons. by destruct (reverse s).
Qed.

Lemma truthy_true_iff (s : jsstring) : truthy s = true <-> s <> [].
Proof. destruct s; simpl; split; congruence. Qed.

Lemma truthy_trimStart (s : jsstring) :
  truthy (trimStart s) = true <-> nonblank s.
Proof.
  unfold nonblank. induction s as [|c s IH]; simpl.
  - split; [discriminate | intros H; inversion H].
  - destruct (is_ws c) eqn:E.
    + rewrite IH. split; [by right | ].
      intros H. inversion H; subst; [congruence | done].
    + split; [by left | done].
Qed.

Lemma nonblank_trimStart (s : jsstring) : nonblank (trimStart s) <-> nonblank s.
Proof.
  unfold nonblank. induction s as [|c s IH]; simpl; [done|].
  destruct (is_ws c) eqn:E; [|done].
  rewrite IH. split; [by right | ].
  intros H. inversion H; subst; [congruence | done].
Qed.

Lemma nonblank_reverse (s : jsstring) : nonblank (reverse s) <-> nonblank s.
Proof.
  unfold nonblank. rewrite !Exists_exists.
  by setoid_rewrite elem_of_reverse.
Qed.

(** [s.trim()] is truthy exactly when [s] has a code unit that is not
    white space. *)
Lemma truthy_trim (s : jsstring) : truthy (trim s) = true <-> nonblank s.
Proof.
  unfold trim, trimEnd.
  rewrite truthy_reverse, truthy_trimStart, nonblank_reverse.
  apply nonblank_trimStart.
Qed.

Lemma startsWith_spec (p s : jsstring) :
  startsWith p s = true <-> exists r, s = p ++ r.
Proof.
  revert s. induction p as [|a p IH]; intros s; simpl.
  - split; [eauto | done].
  - destruct s as [|b s].
    + split; [discriminate | intros [r Hr]; discriminate].
    + rewrite andb_true_iff, N.eqb_eq, IH. split.
      * intros [-> [r ->]]. eauto.
      * intros [r Hr]. injection Hr as -> ->. eauto.
Qed.

Lemma includes_spec (s p : jsstring) :
  includes s p = true <-> exists a b, s = a ++ p ++ b.
Proof.
  induction s as [|c s IH]; simpl; rewrite orb_true_iff, startsWith_spec.
  - split.
    + intros [[r Hr] | ?]; [|done]. exists [], r. done.
    + intros (a & b & Hab). left.
      destruct a; [|done]. simpl in Hab. eauto.
  - rewrite IH. split.
    + intros [[r Hr] | (a & b & ->)].
      * exists [], r. done.
      * exists (c :: a), b. done.
    + intros (a & b & Hab). destruct a as [|c' a]; simpl in Hab.
      * left. eauto.
      * right. injection Hab as -> ->. eauto.
Qed.

Lemma cut_None (sep s : jsstring) :
  cut sep s = None -> includes s sep = false.
Proof.
  induction s as [|c s IH]; simpl.
  - destruct (startsWith sep []); [discriminate | done].
  - destruct (startsWith sep (c :: s)); [discriminate|].
    destruct (cut sep s) as [[a b]|]; [discriminate|].
    intros _. by apply IH.
Qed.

(** [cut] finds the leftmost occurrence: the separator sits between the
    two pieces, and it starts at no earlier position. *)
Lemma cut_Some (sep s a b : jsstring) :
  cut sep s = Some (a, b) ->
  s = a ++ sep ++ b /\
  forall x y, a = x ++ y -> y <> [] -> startsWith sep (y ++ sep ++ b) = false.
Proof.
  revert a. induction s as [|c s IH]; intros a; simpl.
  - destruct (startsWith sep []) eqn:E; [|discriminate].
    intros [= <- <-]. apply startsWith_spec in E as [r Hr].
    symmetry in Hr. apply app_eq_nil in Hr as [-> ->].
    split; [done|]. intros x y Hxy. symmetry in Hxy.
    apply app_eq_nil in Hxy as [_ ->]. done.
  - destruct (startsWith sep (c :: s)) eqn:E.
    + intros [= <- <-]. apply startsWith_spec in E as [r Hr].
      split.
      * simpl. rewrite Hr. f_equal. by rewrite drop_app_length.
      * intros x y Hxy. symmetry in Hxy.
        apply app_eq_nil in Hxy as [_ ->]. done.
    + destruct (cut sep s) as [[a' b']|] eqn:Hc; [|discriminate].
      intros [= <- <-]. destruct (IH a' eq_refl) as [Hs Hleft].
      split; [simpl; congruence|].
      intros x y Hxy Hy. destruct x as [|c' x]; simpl in Hxy.
      * subst y. simpl. rewrite <- Hs. exact E.
      * injection Hxy as -> ->. by apply (Hleft x y).
Qed.

Lemma cut_shorter (sep s a b : jsstring) :
  sep <> [] -> cut sep s = Some (a, b) -> length b < length s.
Proof.
  intros Hsep Hc. apply cut_Some in Hc as [-> _].
  rewrite !length_app. destruct sep; [done|]. simpl. lia.
Qed.

Lemma cut_before (sep s a b : jsstring) :
  sep <> [] -> cut sep s = Some (a, b) -> includes a sep = false.
Proof.
  intros Hsep Hc. apply cut_Some in Hc as [_ Hleft].
  destruct (includes a sep) eqn:E; [|done].
  apply includes_spec in E as (x & y & ->).
  destruct sep as [|c sep]; [done|].
  specialize (Hleft x ((c :: sep) ++ y) eq_refl).
  rewrite <- Hleft; [|done].
  symmetry. apply startsWith_spec. eexists. by rewrite <- app_assoc.
Qed.

Lemma join_cons (sep p : jsstring) (ps : list jsstring) :
  ps <> [] -> join sep (p :: ps) = p ++ sep ++ join sep ps.
Proof. by destruct ps. Qed.

Lemma split_loop_nonempty n (sep s : jsstring) : split_loop n sep s <> [].
Proof. destruct n; simpl; [done|]. by destruct (cut sep s) as [[a b]|]. Qed.

(** Joining the parts with the separator gives the string back. *)
Lemma join_split_loop n (sep s : jsstring) :
  join sep (split_loop n sep s) = s.
Proof.
  revert s. induction n as [|n IH]; intros s; simpl; [done|].
  destruct (cut sep s) as [[a b]|] eqn:Hc; [|done].
  rewrite join_cons by apply split_loop_nonempty.
  rewrite IH. by apply cut_Some in Hc as [-> _].
Qed.

(** With enough fuel no part holds the separator. *)
Lemma split_loop_parts n (sep s : jsstring) :
  sep <> [] -> length s <= n ->
  Forall (fun part => includes part sep = false) (split_loop n sep s).
Proof.
  intros Hsep. revert s. induction n as [|n IH]; intros s Hn; simpl.
  - destruct s; [|simpl in Hn; lia].
    constructor; [|done]. by destruct sep.
  - destruct (cut sep s) as [[a b]|] eqn:Hc.
    + constructor; [by eapply cut_before|].
      apply IH. apply (cut_shorter _ _ _ _ Hsep) in Hc. lia.
    + constructor; [by apply cut_None|done].
Qed.

Lemma join_split (sep s : jsstring) : join sep (split sep s) = s.
Proof. apply join_split_loop. Qed.

Lemma split_parts (sep s : jsstring) :
  sep <> [] -> Forall (fun part => includes part sep = false) (split sep s).
Proof. intros Hsep. by apply split_loop_parts. Qed.

End Strings.

(** ** AICodeReview: the sections of a reply *)
Section ReviewSections.
Import JS Regex AICodeReview.

Lemma parseSection_content (text : jsstring) :
  content (parseSection text) = trim text.
Proof.
  unfold parseSection.
  by destruct (scanLines (linesOf text) (lit "Review") None).
Qed.

(** C7. The sections of a review reply are the parts of the reply between
    the occurrences of the delimiter [---REVIEW_BREAK---] that hold a code
    unit other than white space, in their order: the parts joined by the
    delimiter are the reply, no part holds the delimiter, the sections are
    the parts that are not blank, and the parsed sections are these, one
    for one, each with its trimmed text as content. *)
Theorem sections_are_the_nonblank_parts (review : jsstring) :
  join REVIEW_BREAK (split REVIEW_BREAK review) = review
  /\ Forall (fun part => includes part REVIEW_BREAK = false)
            (split REVIEW_BREAK review)
  /\ sections review = filter nonblank (split REVIEW_BREAK review)
  /\ content <$> parsed review = trim <$> sections review.
Proof.
  split; [apply join_split|].
  split; [by apply split_parts|].
  split.
  - unfold sections. apply (list_filter_iff _ _). intros s.
    rewrite <- truthy_trim. apply Is_true_true.
  - unfold parsed. rewrite <- list_fmap_compose.
    apply list_fmap_ext. intros _ s _. apply parseSection_content.
Qed.

End ReviewSections.

(** ** The matcher: what a successful match captured *)
Section Matcher.
Import JS Regex.

(** A successful quantified class took at least [min] units of the class
    and handed the rest to the continuation. *)
Lemma rep_Some {A} greedy cls min acc s
    (k : jsstring -> jsstring -> option A) r :
  rep greedy cls min acc s k = Some r ->
  exists taken rest,
    s = taken ++ rest /\ Forall (fun c => cls c = true) taken
    /\ min <= length taken /\ k (reverse acc ++ taken) rest = Some r.
Proof.
  revert min acc. induction s as [|c s IH]; intros min acc; simpl.
  - intros H.
    assert (min = 0 /\ k (reverse acc) [] = Some r) as [-> Hk].
    { destruct greedy, min; try discriminate; auto.
      destruct (k (reverse acc) []); [auto | discriminate]. }
    exists [], [].
    split_and!; [done | constructor | simpl; lia | by rewrite app_nil_r].
  - intros H.
    assert ((min = 0 /\ k (reverse acc) (c :: s) = Some r) \/
            (cls c = true /\
             rep greedy cls (pred min) (c :: acc) s k = Some r)) as [[-> Hk]|[Hc Hr]].
    { destruct (cls c); destruct greedy, min; simpl in H;
        repeat match type of H with
               | match ?x with _ => _ end = _ => destruct x eqn:?
               end; simplify_eq/=; auto. }
    + exists [], (c :: s).
      split_and!; [done | constructor | simpl; lia | by rewrite app_nil_r].
    + apply IH in Hr as (taken & rest & -> & Hall & Hmin & Hk).
      exists (c :: taken), rest. rewrite reverse_cons, <- app_assoc in Hk.
      split_and!; [done | by constructor | simpl; lia | done].
Qed.

(** After a match, a group of the pattern holds at least its minimum of
    units of its class; any other group is as it was. *)
Lemma run_captures (i : nat) (p : list atom) s caps caps' :
  run p s caps = Some caps' ->
  match capturing i p with
  | Some (min, cls) =>
      exists taken, caps' !! i = Some taken
        /\ Forall (fun c => cls c = true) taken /\ min <= length taken
  | None => caps' !! i = caps !! i
  end.
Proof.
  revert s caps. induction p as [|a p IH]; intros s caps; simpl.
  - by intros [= ->].
  - destruct a as [cls | cap greedy min cls].
    + destruct s as [|c s]; [discriminate|].
      destruct (cls c); [|discriminate].
      intros H. apply IH in H. by destruct (capturing i p) as [[]|].
    + intros H. apply rep_Some in H as (taken & rest & -> & Hall & Hmin & H).
      apply IH in H. destruct (capturing i p) as [[]|]; [done|].
      destruct cap as [j|]; simpl in H; [|done].
      destruct (decide (i = j)) as [->|Hne].
      * rewrite lookup_insert_eq in H. eauto.
      * by rewrite lookup_insert_ne in H.
Qed.

Lemma exec_captures (i : nat) (r : regex) s caps' :
  exec r s = Some caps' ->
  match capturing i (body r) with
  | Some (min, cls) =>
      exists taken, caps' !! i = Some taken
        /\ Forall (fun c => cls c = true) taken /\ min <= length taken
  | None => caps' !! i = None
  end.
Proof.
  unfold exec. intros H.
  assert (exists s', run (body r) s' ∅ = Some caps') as [s' Hrun].
  { destruct (anchored r); [eauto|].
    induction s as [|c s IH]; simpl in H.
    - destruct (run (body r) [] ∅) eqn:E; [|discriminate].
      injection H as <-. eauto.
    - destruct (run (body r) (c :: s) ∅) eqn:E; [|by apply IH].
      injection H as <-. eauto. }
  apply (run_captures i) in Hrun.
  destruct (capturing i (body r)) as [[]|]; [done|].
  by rewrite Hrun, lookup_empty.
Qed.

(** [parseInt] of a run of digits is zero only for a run of zeros. *)
Lemma parseInt_zero (digits : jsstring) :
  Forall (fun c => is_digit c = true) digits ->
  parseInt digits = 0%N <-> Forall (fun c => c = 48%N) digits.
Proof.
  unfold parseInt. intros Hd.
  enough (forall acc,
    fold_left (fun acc c => (10 * acc + digit_val c)%N) digits acc = 0%N
    <-> acc = 0%N /\ Forall (fun c => c = 48%N) digits) as H.
  { rewrite H. tauto. }
  induction Hd as [|c digits Hc _ IH]; intros acc; simpl.
  - split; [auto | tauto].
  - rewrite IH, Forall_cons. unfold is_digit, digit_val in *.
    apply andb_true_iff in Hc as [Hlo%N.leb_le Hhi%N.leb_le].
    assert ((10 * acc + (c - 48))%N = 0%N <-> acc = 0%N /\ c = 48%N) by lia.
    tauto.
Qed.

End Matcher.

(** ** AICodeReview: the title and the score of a section *)
Section ReviewScores.
Import JS Regex AICodeReview.

Lemma scanLines_None lines t sc :
  (scanLines lines t sc).2 = None <-> sc = None /\ Forall unscored lines.
Proof.
  revert t sc. induction lines as [|line rest IH]; intros t sc; simpl.
  - split; [auto | tauto].
  - rewrite Forall_cons. unfold unscored at 1.
    destruct (exec titleRe line) as [m|]; simpl.
    + split; [discriminate | intros (_ & [? _] & _); discriminate].
    + rewrite IH. destruct (exec scoreRe line) as [m|].
      * split; [intros [? _]; discriminate
               | intros (_ & [_ ?] & _); discriminate].
      * tauto.
Qed.

Lemma titleRe_digits line m :
  exec titleRe line = Some m ->
  exists digits, m !! 2 = Some digits /\ group 2 m = digits
    /\ Forall (fun c => is_digit c = true) digits /\ digits <> [].
Proof.
  intros H. apply (exec_captures 2) in H. simpl in H.
  destruct H as (digits & Hm & Hall & Hlen).
  exists digits. unfold group. rewrite Hm.
  repeat split; try done. by destruct digits; [simpl in Hlen; lia|].
Qed.

Lemma scoreRe_digits line m :
  exec scoreRe line = Some m ->
  exists digits, m !! 1 = Some digits /\ group 1 m = digits
    /\ Forall (fun c => is_digit c = true) digits /\ digits <> [].
Proof.
  intros H. apply (exec_captures 1) in H. simpl in H.
  destruct H as (digits & Hm & Hall & Hlen).
  exists digits. unfold group. rewrite Hm.
  repeat split; try done. by destruct digits; [simpl in Hlen; lia|].
Qed.

Lemma scanLines_Some lines t sc n :
  (scanLines lines t sc).2 = Some n ->
  sc = Some n \/
  exists line digits,
    line ∈ lines /\ scored line digits /\ digits <> []
    /\ Forall (fun c => is_digit c = true) digits /\ n = parseInt digits.
Proof.
  revert t sc. induction lines as [|line rest IH]; intros t sc; simpl.
  - auto.
  - destruct (exec titleRe line) as [m|] eqn:Ht; simpl.
    + intros [= <-]. right.
      destruct (titleRe_digits _ _ Ht) as (digits & Hm & -> & Hall & Hne).
      exists line, digits. repeat split; try done; [by left|].
      exists m. auto.
    + intros H. apply IH in H as [H | (l & d & Hin & Hrest)].
      * destruct (exec scoreRe line) as [m|] eqn:Hs; [|auto].
        injection H as <-. right.
        destruct (scoreRe_digits _ _ Hs) as (digits & Hm & -> & Hall & Hne).
        exists line, digits. repeat split; try done; [by left|].
        exists m. auto.
      * right. exists l, d. split; [by right | done].
Qed.

Lemma parseSection_score (text : jsstring) :
  score (parseSection text) = (scanLines (linesOf text) (lit "Review") None).2.
Proof.
  unfold parseSection.
  by destruct (scanLines (linesOf text) (lit "Review") None).
Qed.

Lemma parseSection_title (text : jsstring) :
  title (parseSection text) = (scanLines (linesOf text) (lit "Review") None).1.
Proof.
  unfold parseSection.
  by destruct (scanLines (linesOf text) (lit "Review") None).
Qed.

(** C1. The score of a parsed section is absent exactly when neither score
    pattern matches any line of the section; a score that is present is the
    number read from the one or more decimal digits that a score pattern
    captured on a line of the section, and it is the number zero exactly
    when these digits are all zeros.  A section scored 0/10 has the score
    zero, which is not the absent score. *)
Theorem score_absent_iff_no_pattern (text : jsstring) :
  (score (parseSection text) = None <-> Forall unscored (linesOf text))
  /\ (forall n, score (parseSection text) = Some n ->
        exists line digits,
          line ∈ linesOf text /\ scored line digits /\ digits <> []
          /\ Forall (fun c => is_digit c = true) digits
          /\ n = parseInt digits
          /\ (n = 0%N <-> Forall (fun c => c = 48%N) digits))
  /\ score (parseSection (lit "**Security** (0/10)")) = Some 0%N
  /\ Some 0%N <> (None : option N).
Proof.
  rewrite parseSection_score. split; [|split; [|split]].
  - rewrite scanLines_None. tauto.
  - intros n H. apply scanLines_Some in H as [H | H]; [discriminate|].
    destruct H as (line & digits & Hin & Hsc & Hne & Hall & ->).
    exists line, digits. repeat split; try done; by apply parseInt_zero.
  - by vm_compute.
  - discriminate.
Qed.

End ReviewScores.

(** ** The parser on sample replies *)
Section Samples.
Import JS Regex AICodeReview.

(** The bold pattern gives both the title and the score and ends the
    loop; the heading above it is not used. *)
Example parse_bold_line :
  parseSection (lit "## Security" ++ [10%N]
                ++ lit "**Security Review** (8/10)" ++ [10%N]
                ++ lit "Score: 3/10")
  = {| title := lit "Security Review"; score := Some 8%N;
       content := lit "## Security" ++ [10%N]
                  ++ lit "**Security Review** (8/10)" ++ [10%N]
                  ++ lit "Score: 3/10" |}.
Proof. by vm_compute. Qed.

(** The lazy group stops at the first closing pair of stars, and the
    fraction is found wherever it follows. *)
Example parse_lazy_title :
  title (parseSection (lit "**A** **B** 3/100")) = lit "A"
  /\ score (parseSection (lit "**A** **B** 3/100")) = Some 3%N.
Proof. split; by vm_compute. Qed.

(** The standalone pattern ignores case and allows blanks around the
    slash. *)
Example parse_standalone_score :
  score (parseSection (lit "Overall SCORE: 07 / 10")) = Some 7%N.
Proof. by vm_compute. Qed.

(** A bare fraction is no score pattern. *)
Example parse_bare_fraction :
  score (parseSection (lit "Rated 8/10 overall")) = None.
Proof. by vm_compute. Qed.

(** Occurrences of the separator are taken leftmost first and do not
    overlap. *)
Example split_overlapping :
  split (lit "aa") (lit "aaaaa") = [ []; []; lit "a" ].
Proof. by vm_compute. Qed.

Example sections_of_reply :
  sections (lit "one---REVIEW_BREAK---  ---REVIEW_BREAK---two")
  = [ lit "one"; lit "two" ].
Proof. by vm_compute. Qed.

End Samples.

(** ** AICodeReview: headings and score cards *)
Section ReviewTitles.
Import JS Regex AICodeReview.

(** While [title] is a non-empty string the heading branch never fires:
    the loop ends with the title it started with, or with the bold text of
    the first line on which the bold pattern matches. *)
Lemma scanLines_title lines t sc :
  truthy t = true ->
  (scanLines lines t sc).1 = t \/
  exists line m, line ∈ lines /\ exec titleRe line = Some m
                 /\ (scanLines lines t sc).1 = group 1 m.
Proof.
  intros Ht. revert sc. induction lines as [|line rest IH]; intros sc; simpl.
  - by left.
  - destruct (exec titleRe line) as [m|] eqn:Hm; simpl.
    + right. exists line, m. split; [by left | done].
    + rewrite Ht; simpl.
      replace (match exec headingRe line with Some _ | _ => t end)
        with t by (by destruct (exec headingRe line)).
      destruct (IH (match exec scoreRe line with
                    | Some scoreMatch => Some (parseInt (group 1 scoreMatch))
                    | None => sc
                    end)) as [H | (l & m & Hin & Hl & H)].
      * by left.
      * right. exists l, m. split; [by right | done].
Qed.

(** Without a line that matches the bold pattern the title is the default
    one, whatever headings the section has. *)
Lemma title_without_bold_pattern (text : jsstring) :
  Forall (fun line => exec titleRe line = None) (linesOf text) ->
  title (parseSection text) = lit "Review".
Proof.
  intros Hno. rewrite parseSection_title.
  destruct (scanLines_title (linesOf text) (lit "Review") None eq_refl)
    as [H | (line & m & Hin & Hm & _)]; [done|].
  rewrite Forall_forall in Hno. apply Hno in Hin. congruence.
Qed.

(** C2, at a section with a heading and no bold score line: the heading
    pattern matches the first line and captures its text, no line matches
    the bold pattern, and the section is parsed with the default title
    [Review], not with the text of the heading. *)
Theorem heading_is_not_the_title :
  let heading := lit "# Security Analysis" in
  let text := heading ++ [10%N] ++ lit "No issues found." in
  linesOf text = [heading; lit "No issues found."]
  /\ (exists m, exec headingRe heading = Some m
                /\ group 1 m = lit "Security Analysis")
  /\ Forall (fun line => exec titleRe line = None) (linesOf text)
  /\ title (parseSection text) = lit "Review"
  /\ lit "Review" <> lit "Security Analysis".
Proof.
  split; [by vm_compute|].
  split.
  - eexists. split; [reflexivity | by vm_compute].
  - split; [|split; [by vm_compute | discriminate]].
    assert (linesOf
              (lit "# Security Analysis" ++ [10%N] ++ lit "No issues found.")
            = [lit "# Security Analysis"; lit "No issues found."]) as ->
      by (by vm_compute).
    repeat constructor; by vm_compute.
Qed.

(** C10. The score-card grid is rendered exactly when more than one section
    was parsed; its cards are the first five sections that have a score, so
    there are at most five, each has a score, and they keep the order of
    the sections. *)
Theorem score_cards_spec (ps : list Parsed) :
  (is_Some (scoreCards ps) <-> 1 < length ps)
  /\ (forall cards, scoreCards ps = Some cards ->
        cards = take 5 (filter (fun p => score p <> None) ps)
        /\ length cards <= 5
        /\ Forall (fun p => score p <> None) cards
        /\ cards `sublist_of` ps).
Proof.
  unfold scoreCards. destruct (decide (1 < length ps)) as [Hlen|Hlen].
  - split; [by split; eauto|].
    intros cards [= <-]. split_and!.
    + done.
    + rewrite length_take. lia.
    + apply Forall_take, Forall_forall.
      intros p Hp. by apply list_elem_of_filter in Hp as [? _].
    + etrans; [apply sublist_take | apply sublist_filter].
  - split; [|discriminate].
    split; [intros [cards ?]; discriminate | lia].
Qed.

End ReviewTitles.

(** ** The landing page: submitting a repository reference *)
Section Submit.
Import JS Home.




(** A reference with the host is sent once, trimmed, to the create
    endpoint. *)
Lemma reference_with_host_is_submitted st server :
  includes (repoUrl st) (lit "github.com") = true ->
  requests (handleSubmit st server)
  = [ {| url := lit "/api/generate"; method := lit "POST";
         repo_url := trim (repoUrl st) |} ].
Proof.
  intros Hhost. unfold handleSubmit. rewrite Hhost.
  assert (truthy (trim (repoUrl st)) = true) as ->.
  { apply truthy_trim. apply Exists_exists.
    apply includes_spec in Hhost as (a & b & ->).
    exists 103%N. split; [|reflexivity].
    apply elem_of_app. right. apply elem_of_app. left.
    vm_compute. by left. }
  simpl. by destruct (server _).
Qed.

End Submit.

(** ** The results page: polling *)
Section Polling.
Import JS GeneratePage.

Lemma Status_eqb_eq a b : Status_eqb a b = true <-> a = b.
Proof. destruct a, b; simpl; split; congruence. Qed.

Lemma pollEffect_true taskId s :
  pollEffect taskId s = true -> terminal s = false /\ truthy taskId = true.
Proof.
  unfold pollEffect. destruct (truthy taskId); simpl; [|discriminate].
  by destruct (terminal s).
Qed.

Lemma mount_consistent taskId : consistent (mount taskId).
Proof.
  intros h. unfold mount. simpl.
  destruct (pollEffect taskId pending) eqn:E; [|discriminate].
  intros _. by apply pollEffect_true in E.
Qed.

Lemma clearInterval_Some h live h' :
  clearInterval h live = Some h' -> live = Some h'.
Proof.
  destruct live as [x|]; simpl; [|done]. by destruct (h =? x)%nat.
Qed.

Lemma step_consistent p e : consistent p -> consistent (step p e).
Proof.
  intros Hc. destruct e as [|i reply|reply|]; simpl.
  - unfold fire. destruct (interval p) eqn:E; [|done].
    intros h H. simpl in *. apply (Hc h). congruence.
  - unfold statusArrives. destruct (awaitingStatus p !! i) as [h0|]; [|done].
    destruct reply as [| |data]; [done..|].
    destruct (Status_eqb (status data) complete); [|done].
    intros h. simpl. intros H%clearInterval_Some. by apply (Hc h).
  - unfold resultArrives. by destruct (awaitingResult p).
  - unfold render.
    destruct (Status_eqb (effectStatus p) (status (current p))); [done|].
    intros h. simpl.
    destruct (pollEffect (taskId p) (status (current p))) eqn:E;
      [|discriminate].
    intros _. by apply pollEffect_true in E.
Qed.

Lemma run_app p events1 events2 :
  run p (events1 ++ events2) = run (run p events1) events2.
Proof. apply fold_left_app. Qed.

Lemma run_consistent p events : consistent p -> consistent (run p events).
Proof.
  revert p. induction events as [|e events IH]; intros p Hp; simpl; [done|].
  apply IH. by apply step_consistent.
Qed.

(** Nothing happens to a page at rest. *)
Lemma step_atRest p e : atRest p -> step p e = p.
Proof.
  intros (Hi & Hs & Hr & He). destruct e as [|i reply|reply|]; simpl.
  - unfold fire. by rewrite Hi.
  - unfold statusArrives. by rewrite Hs.
  - unfold resultArrives. by rewrite Hr.
  - unfold render. rewrite He.
    by rewrite (proj2 (Status_eqb_eq _ _) eq_refl).
Qed.

Lemma run_atRest p events : atRest p -> run p events = p.
Proof.
  intros Hp. induction events as [|e events IH]; simpl; [done|].
  by rewrite step_atRest.
Qed.

(** C4, at a status reply that arrives late.  Two firings overlap; the
    reply to the second says [complete] (or [error]), the page shows it
    and holds no interval any more; then the reply to the first, still
    [generating], arrives: the page goes back to [generating], the next
    render sets a new interval, and the next firing asks for the status
    again. *)
Theorem stale_reply_reopens_polling :
  let stale := SOk {| status := generating; progress := 60; message := [] |} in
  let last s := SOk {| status := s; progress := 100; message := [] |} in
  let shown s :=
    run (mount (lit "t1")) [Fire; Fire; StatusArrives 1 (last s); Render] in
  let later s := run (shown s) [StatusArrives 0 stale; Render; Fire] in
  (status (current (shown complete)) = complete
   /\ interval (shown complete) = None
   /\ issued (shown complete)
      = [GetStatus (lit "t1"); GetStatus (lit "t1"); GetResult (lit "t1")]
   /\ status (current (later complete)) = generating
   /\ interval (later complete) = Some 1
   /\ issued (later complete)
      = issued (shown complete) ++ [GetStatus (lit "t1")])
  /\ (status (current (shown error)) = error
      /\ interval (shown error) = None
      /\ issued (shown error) = [GetStatus (lit "t1"); GetStatus (lit "t1")]
      /\ status (current (later error)) = generating
      /\ interval (later error) = Some 1
      /\ issued (later error)
         = issued (shown error) ++ [GetStatus (lit "t1")]).
Proof. split; split_and!; by vm_compute. Qed.

(** Two firings that both see [complete] both ask for the result. *)
Example overlapping_firings_fetch_twice :
  issued (run (mount (lit "t1"))
              [Fire; Fire;
               StatusArrives 0
                 (SOk {| status := complete; progress := 100; message := [] |});
               StatusArrives 0
                 (SOk {| status := complete; progress := 100; message := [] |})])
  = [GetStatus (lit "t1"); GetStatus (lit "t1");
     GetResult (lit "t1"); GetResult (lit "t1")].
Proof. by vm_compute. Qed.

End Polling.

(** ** The results page: placeholders for missing sections *)
Section Placeholders.
Import JS DocViewer GeneratePage.

Lemma orElse_missing v fallback :
  present v = false -> orElse v fallback = fallback.
Proof.
  destruct v as [s|]; simpl; [|done]. by destruct (truthy s).
Qed.

Lemma orElse_present v fallback :
  present v = true -> Some (orElse v fallback) = v.
Proof.
  destruct v as [s|]; simpl; [|done]. by destruct (truthy s).
Qed.

Lemma DocViewer_missing v : present v = false -> DocViewer v = Italic noContent.
Proof.
  destruct v as [s|]; simpl; [|done]. by destruct (truthy s).
Qed.

Lemma DocViewer_present s : truthy s = true -> DocViewer (Some s) = Markdown s.
Proof. simpl. by intros ->. Qed.

(** C5. Whatever the other fields of a bundle hold, a tab whose own field
    is empty or absent shows its fixed placeholder: the tech-stack, setup
    and API tabs show their sentence as the document, the raw-markdown tab
    shows its sentence as text, and in the list of all sections every
    section without content shows the viewer's sentence under its title
    while the others show their content.  The rendering is a total
    function of the bundle, so no missing field makes it fail. *)
Theorem missing_sections_show_placeholders (d : GeneratedDocs) :
  (present (tech_stack d) = false ->
   renderTab techstackTab d
   = [Markdown (lit "No tech stack information generated.")])
  /\ (present (setup_guide d) = false ->
      renderTab setupTab d = [Markdown (lit "No setup guide generated.")])
  /\ (present (api_docs d) = false ->
      renderTab apiTab d
      = [Markdown (lit "No API documentation detected for this project.")])
  /\ (present (full_markdown d) = false ->
      renderTab markdownTab d = [Pre (lit "Markdown not available.")])
  /\ (present (overview d) = false ->
      renderTab overviewTab d = [Italic (lit "No content available.")])
  /\ length (renderTab sectionsTab d) = length (sections d)
  /\ (forall i sec, sections d !! i = Some sec ->
        renderTab sectionsTab d !! i
        = Some (Card (title sec)
                     (if present (content sec)
                      then Markdown (default [] (content sec))
                      else Italic (lit "No content available.")))).
Proof.
  split_and!; simpl.
  - intros H. by rewrite orElse_missing.
  - intros H. by rewrite orElse_missing.
  - intros H. by rewrite orElse_missing.
  - intros H. by rewrite orElse_missing.
  - intros H. by rewrite DocViewer_missing.
  - by rewrite length_fmap.
  - intros i sec Hsec. rewrite list_lookup_fmap, Hsec. simpl.
    destruct (content sec) as [s|]; simpl; [|done]. by destruct (truthy s).
Qed.

(** A field that is there is shown as it is. *)
Lemma present_sections_show_content (d : GeneratedDocs) s :
  truthy s = true ->
  (tech_stack d = Some s -> renderTab techstackTab d = [Markdown s])
  /\ (setup_guide d = Some s -> renderTab setupTab d = [Markdown s])
  /\ (api_docs d = Some s -> renderTab apiTab d = [Markdown s])
  /\ (full_markdown d = Some s -> renderTab markdownTab d = [Pre s]).
Proof.
  intros Hs.
  split_and!; intros H; unfold renderTab, orElse, DocViewer;
    by rewrite H, !Hs.
Qed.

End Placeholders.

(** ** The health grade *)
Section Grades.
Import HealthScorer.

Lemma grade_in_band (s : Z) : (0 <= s <= 100)%Z -> in_band (grade s) s.
Proof.
  intros Hs. unfold grade, in_band.
  repeat match goal with
         | |- context [(?a <=? ?b)%Z] => destruct (Z.leb_spec a b)
         end; simpl; lia.
Qed.

Lemma band_unique (g1 g2 : Grade) (s : Z) :
  in_band g1 s -> in_band g2 s -> g1 = g2.
Proof. unfold in_band. destruct g1, g2; simpl; intros; congruence || lia. Qed.

(** C6. On scores from 0 to 100 the grade is a function of the score with
    values among the six grades; it never gets worse as the score grows;
    and the bands of the thresholds cover every score exactly once, the
    grade of a score being the one whose band holds it. *)
Theorem grade_is_monotone_and_total (s t : Z) :
  (0 <= s <= 100)%Z -> (0 <= t <= 100)%Z ->
  ((s <= t)%Z -> rank (grade s) <= rank (grade t))
  /\ (s = t -> grade s = grade t)
  /\ grade s ∈ [Aplus; A; B; C; D; F]
  /\ (forall g, in_band g s <-> g = grade s).
Proof.
  intros Hs Ht. split_and!.
  - intros Hle. pose proof (grade_in_band s Hs) as H1.
    pose proof (grade_in_band t Ht) as H2. unfold in_band in *.
    destruct (grade s), (grade t); simpl in *; lia.
  - by intros ->.
  - destruct (grade s); repeat constructor.
  - intros g. split.
    + intros Hg. eapply band_unique; [done | by apply grade_in_band].
    + intros ->. by apply grade_in_band.
Qed.

Lemma grade_witness :
  rank (grade 54) <= rank (grade 55) /\ grade 54 = D /\ grade 55 = C.
Proof.
  destruct (grade_is_monotone_and_total 54 55) as (Hmono & _); [lia..|].
  split; [apply Hmono; lia|]. split; reflexivity.
Defined.

End Grades.

(** ** The complexity dashboard: bar widths *)
Section Bars.
Import JS ComplexityDashboard.

(** [maxLines] is the maximum of the line counts and 1. *)
Lemma maxLines_spec (dist : list Language) :
  (1 <= maxLines dist)%Z
  /\ (forall l, l ∈ dist -> (lines l <= maxLines dist)%Z)
  /\ (maxLines dist = 1%Z \/ exists l, l ∈ dist /\ lines l = maxLines dist).
Proof.
  unfold maxLines. induction dist as [|l0 dist (IH1 & IH2 & IH3)].
  - simpl. split_and!; [lia | intros l Hl; inversion Hl | by left].
  - rewrite fmap_cons. cbn [fold_right].
    set (m := fold_right Z.max 1%Z (lines <$> dist)) in *.
    split_and!.
    + lia.
    + intros l [->|Hl]%elem_of_cons; [lia|]. specialize (IH2 l Hl). lia.
    + destruct (Z.max_spec (lines l0) m) as [[_ ->]|[_ ->]].
      * destruct IH3 as [?|(l & Hl & ?)]; [by left|].
        right. exists l. split; [by right | done].
      * right. exists l0. split; [by left | done].
Qed.




End Bars.

(** ** The health gauge: colour and arc *)
Section Gauge.
Import JS HealthScoreGauge.

(** The six grades of the contract have their own colours. *)
Lemma color_of_contract_grades :
  color (lit "A+") = VString (lit "#00ff88")
  /\ color (lit "A") = VString (lit "#22c55e")
  /\ color (lit "B") = VString (lit "#84cc16")
  /\ color (lit "C") = VString (lit "#eab308")
  /\ color (lit "D") = VString (lit "#f97316")
  /\ color (lit "F") = VString (lit "#ef4444").
Proof. split_and!; by vm_compute. Qed.

(** A grade that is neither an own key of [gradeColors] nor a property of
    [Object.prototype] gets the fallback colour. *)
Lemma color_fallback (grade : jsstring) :
  gradeColors !! grade = None -> Object_prototype !! grade = None ->
  color grade = VString (lit "#888").
Proof.
  intros Hown Hproto. unfold color, get. by rewrite Hown, Hproto.
Qed.

(** The colour is never a falsy value. *)
Lemma color_truthy (grade : jsstring) : ToBoolean (color grade) = true.
Proof.
  unfold color. by destruct (ToBoolean (get gradeColors grade)) eqn:E.
Qed.

(** C9, at the grade [constructor]: it is none of the six grades of the
    contract, yet the lookup finds the method inherited from
    [Object.prototype], a truthy value, so the colour is that function and
    not the fallback [#888]. *)
Theorem color_of_inherited_key :
  gradeColors !! lit "constructor" = None
  /\ get gradeColors (lit "constructor") = VFunction (lit "constructor")
  /\ color (lit "constructor") = VFunction (lit "constructor")
  /\ color (lit "constructor") <> VString (lit "#888").
Proof. split_and!; [by vm_compute.. | by vm_compute]. Qed.

(** The arc offset is the circumference times one minus the hundredth of
    the score. *)
Lemma offset_spec (score : Q) :
  (offset score == circumference * (1 - score / 100))%Q.
Proof. unfold offset. field. Qed.

End Gauge.

(* ===================================================================== *)
(** * Part III: further properties of the components                      *)
(* ===================================================================== *)

(** ** Strings: the shape of a trimmed string, splitting a joined text *)
Section MoreStrings.
Import JS.

Lemma trimStart_head (s : jsstring) c :
  head (trimStart s) = Some c -> is_ws c = false.
Proof.
  induction s as [|x s IH]; simpl; [done|].
  destruct (is_ws x) eqn:E; [done|]. simpl. by intros [= <-].
Qed.

Lemma trimStart_app_nonws (l r : jsstring) c :
  is_ws c = false -> trimStart (l ++ c :: r) = trimStart l ++ c :: r.
Proof.
  intros Hc. induction l as [|x l IH]; simpl; [by rewrite Hc|].
  by destruct (is_ws x).
Qed.

Lemma trimEnd_cons_nonws (t : jsstring) c :
  is_ws c = false -> trimEnd (c :: t) = c :: trimEnd t.
Proof.
  intros Hc. unfold trimEnd.
  rewrite reverse_cons, (trimStart_app_nonws _ [] c Hc).
  by rewrite reverse_app.
Qed.

(** A trimmed string neither starts nor ends with white space. *)
Lemma trim_ends (s : jsstring) c :
  head (trim s) = Some c \/ last (trim s) = Some c -> is_ws c = false.
Proof.
  unfold trim. intros [H|H].
  - destruct (trimStart s) as [|x t] eqn:E; [done|].
    assert (is_ws x = false) as Hx by (apply (trimStart_head s); by rewrite E).
    rewrite trimEnd_cons_nonws in H by done. by injection H as <-.
  - unfold trimEnd in H. rewrite last_reverse in H.
    by apply trimStart_head in H.
Qed.

Lemma cut_None_iff (sep s : jsstring) :
  cut sep s = None <-> includes s sep = false.
Proof.
  split; [apply cut_None|].
  intros Hno. destruct (cut sep s) as [[a b]|] eqn:E; [|done].
  apply cut_Some in E as [-> _].
  assert (includes (a ++ sep ++ b) sep = true) as H
    by (apply includes_spec; eauto).
  congruence.
Qed.

(** A string without the separator is its own single part. *)
Lemma split_without_separator (sep s : jsstring) :
  includes s sep = false -> split sep s = [s].
Proof.
  intros Hno. unfold split. destruct (length s); simpl; [done|].
  by apply cut_None_iff in Hno as ->.
Qed.

Lemma startsWith_single c x (s : jsstring) :
  startsWith [c] (x :: s) = (c =? x)%N.
Proof. simpl. apply andb_true_r. Qed.

Lemma cut_single_None c (p : jsstring) : c ∉ p -> cut [c] p = None.
Proof.
  intros Hc. apply cut_None_iff.
  destruct (includes p [c]) eqn:E; [|done].
  apply includes_spec in E as (a & b & ->).
  exfalso. apply Hc. apply elem_of_app. right. by left.
Qed.

Lemma cut_single c (p rest : jsstring) :
  c ∉ p -> cut [c] (p ++ c :: rest) = Some (p, rest).
Proof.
  induction p as [|x p IH]; intros Hc.
  - simpl. by rewrite N.eqb_refl.
  - apply not_elem_of_cons in Hc as [Hx Hp].
    change ((x :: p) ++ c :: rest) with (x :: (p ++ c :: rest)).
    unfold cut; fold cut. rewrite startsWith_single.
    apply N.eqb_neq in Hx. rewrite Hx. by rewrite IH.
Qed.

Lemma split_loop_join_single c (parts : list jsstring) n :
  parts <> [] -> Forall (fun p => c ∉ p) parts ->
  length (join [c] parts) <= n ->
  split_loop n [c] (join [c] parts) = parts.
Proof.
  intros Hne Hall. revert n.
  induction Hall as [|p ps Hp Hall IH]; [done|]. intros n Hn.
  destruct ps as [|q ps].
  - simpl. destruct n; simpl; [done|]. by rewrite cut_single_None.
  - rewrite join_cons in * by done.
    specialize (IH ltac:(done)).
    set (rest := join [c] (q :: ps)) in *.
    change (p ++ [c] ++ rest) with (p ++ c :: rest) in *.
    rewrite length_app in Hn. cbn [length] in Hn.
    destruct n as [|n]; [lia|]. cbn [split_loop].
    rewrite cut_single by done.
    f_equal. apply IH. lia.
Qed.

(** Joining with a one-unit separator and splitting on it gives the
    parts back, when there is a part and no part holds the separator. *)
Lemma split_join_single c (parts : list jsstring) :
  parts <> [] -> Forall (fun p => c ∉ p) parts ->
  split [c] (join [c] parts) = parts.
Proof. intros Hne Hall. by apply split_loop_join_single. Qed.

End MoreStrings.

(** ** AICodeReview: which line decides, and what a section looks like *)
Section MoreReview.
Import JS Regex AICodeReview.

Lemma scanLines_first_bold pre line post t sc m :
  Forall (fun l => exec titleRe l = None) pre ->
  exec titleRe line = Some m ->
  scanLines (pre ++ line :: post) t sc
  = (group 1 m, Some (parseInt (group 2 m))).
Proof.
  intros Hpre Hm. revert t sc.
  induction Hpre as [|l pre Hl _ IH]; intros t sc; simpl.
  - by rewrite Hm.
  - rewrite Hl. apply IH.
Qed.

(** The first line that matches the bold pattern gives both the title and
    the score, whatever the lines before it scored and whatever follows. *)
Theorem first_bold_line_decides text pre line post m :
  linesOf text = pre ++ line :: post ->
  Forall (fun l => exec titleRe l = None) pre ->
  exec titleRe line = Some m ->
  title (parseSection text) = group 1 m
  /\ score (parseSection text) = Some (parseInt (group 2 m)).
Proof.
  intros Hlines Hpre Hm.
  rewrite parseSection_title, parseSection_score, Hlines.
  by rewrite (scanLines_first_bold pre line post _ _ m).
Qed.

Lemma first_bold_line_witness :
  title (parseSection (lit "Score: 2/10" ++ [10%N] ++ lit "**Perf** 9/10"
                       ++ [10%N] ++ lit "**Late** 1/10")) = lit "Perf"
  /\ score (parseSection (lit "Score: 2/10" ++ [10%N] ++ lit "**Perf** 9/10"
                          ++ [10%N] ++ lit "**Late** 1/10")) = Some 9%N.
Proof.
  refine (first_bold_line_decides
           (lit "Score: 2/10" ++ [10%N] ++ lit "**Perf** 9/10"
            ++ [10%N] ++ lit "**Late** 1/10")
           [lit "Score: 2/10"] (lit "**Perf** 9/10") [lit "**Late** 1/10"]
           (default ∅ (exec titleRe (lit "**Perf** 9/10")))
           eq_refl _ eq_refl).
  repeat constructor.
Defined.

Lemma scanLines_unscored lines t sc :
  Forall unscored lines -> (scanLines lines t sc).2 = sc.
Proof.
  intros H. revert t sc.
  induction H as [|l lines [Ht Hs] _ IH]; intros t sc; simpl; [done|].
  rewrite Ht, Hs. apply IH.
Qed.

Lemma scanLines_last_score pre line post t sc m :
  Forall (fun l => exec titleRe l = None) (pre ++ line :: post) ->
  exec scoreRe line = Some m ->
  Forall (fun l => exec scoreRe l = None) post ->
  (scanLines (pre ++ line :: post) t sc).2 = Some (parseInt (group 1 m)).
Proof.
  intros Hno Hm Hpost. revert t sc.
  induction pre as [|l pre IH]; intros t sc; simpl in *.
  - apply Forall_cons in Hno as [Hl Hno]. rewrite Hl, Hm.
    apply scanLines_unscored.
    rewrite Forall_forall in *. intros x Hx. split; auto.
  - apply Forall_cons in Hno as [Hl Hno]. rewrite Hl. by apply IH.
Qed.

(** Without a bold line, the last line that matches the standalone score
    pattern gives the score, and the title is the default one. *)
Theorem last_score_line_decides text pre line post m :
  linesOf text = pre ++ line :: post ->
  Forall (fun l => exec titleRe l = None) (linesOf text) ->
  exec scoreRe line = Some m ->
  Forall (fun l => exec scoreRe l = None) post ->
  title (parseSection text) = lit "Review"
  /\ score (parseSection text) = Some (parseInt (group 1 m)).
Proof.
  intros Hlines Hno Hm Hpost. split.
  - by apply title_without_bold_pattern.
  - rewrite parseSection_score. rewrite Hlines in *.
    by apply scanLines_last_score.
Qed.

Lemma last_score_line_witness :
  score (parseSection (lit "Score: 2/10" ++ [10%N] ++ lit "Final score 6/10"
                       ++ [10%N] ++ lit "Thanks.")) = Some 6%N.
Proof.
  refine (proj2 (last_score_line_decides
           (lit "Score: 2/10" ++ [10%N] ++ lit "Final score 6/10"
            ++ [10%N] ++ lit "Thanks.")
           [lit "Score: 2/10"] (lit "Final score 6/10") [lit "Thanks."]
           (default ∅ (exec scoreRe (lit "Final score 6/10")))
           eq_refl _ eq_refl _)).
  - repeat constructor.
  - repeat constructor.
Defined.

Lemma titleRe_title line m :
  exec titleRe line = Some m ->
  group 1 m <> []
  /\ Forall (fun c => is_line_terminator c = false) (group 1 m).
Proof.
  intros H. apply (exec_captures 1) in H. simpl in H.
  destruct H as (taken & Hm & Hall & Hlen).
  unfold group. rewrite Hm. simpl. split.
  - destruct taken; [simpl in Hlen; lia | done].
  - eapply Forall_impl; [exact Hall|]. intros c Hc.
    unfold is_dot in Hc. by destruct (is_line_terminator c).
Qed.

(** Every parsed section of a reply has a title that is not empty and
    stays on one line, and a content that is not empty and has no white
    space at either end. *)
Theorem parsed_section_shape review p :
  p ∈ parsed review ->
  title p <> []
  /\ Forall (fun c => is_line_terminator c = false) (title p)
  /\ content p <> []
  /\ (forall c, head (content p) = Some c \/ last (content p) = Some c ->
                is_ws c = false).
Proof.
  unfold parsed, sections. intros Hp.
  apply list_elem_of_fmap in Hp as (text & -> & Htext).
  apply list_elem_of_filter in Htext as [Htrim _].
  rewrite parseSection_content, parseSection_title.
  assert (title_ok :
    (scanLines (linesOf text) (lit "Review") None).1 <> []
    /\ Forall (fun c => is_line_terminator c = false)
              (scanLines (linesOf text) (lit "Review") None).1).
  { destruct (scanLines_title (linesOf text) (lit "Review") None eq_refl)
      as [-> | (line & m & _ & Hm & ->)].
    - split; [done | by repeat constructor].
    - by apply (titleRe_title line). }
  destruct title_ok as [Hne Hone]. split_and!; try done.
  - apply Is_true_true in Htrim. by apply truthy_true_iff.
  - apply trim_ends.
Qed.

Lemma parsed_section_witness :
  title (parseSection (lit "  **Docs** 4/10  ")) <> []
  /\ content (parseSection (lit "  **Docs** 4/10  ")) <> [].
Proof.
  destruct (parsed_section_shape (lit "  **Docs** 4/10  ")
              (parseSection (lit "  **Docs** 4/10  ")))
    as (Ht & _ & Hc & _).
  - vm_compute. left.
  - split; [exact Ht | exact Hc].
Defined.

Lemma parsed_single_part review :
  includes review REVIEW_BREAK = false ->
  parsed review
  = (if truthy (trim review) then [parseSection review] else []).
Proof.
  intros Hno. unfold parsed, sections.
  rewrite split_without_separator by done.
  destruct (truthy (trim review)) eqn:E.
  - rewrite filter_cons_True by (by rewrite E). done.
  - rewrite filter_cons_False by (rewrite E; intros []). done.
Qed.

(** A reply without the delimiter is one section (none if it is blank),
    and the score-card grid is not rendered for it, scored or not. *)
Theorem reply_without_delimiter review :
  includes review REVIEW_BREAK = false ->
  parsed review
  = (if truthy (trim review) then [parseSection review] else [])
  /\ scoreCards (parsed review) = None.
Proof.
  intros Hno. pose proof (parsed_single_part review Hno) as Hp.
  split; [done|]. rewrite Hp. unfold scoreCards.
  destruct (truthy (trim review)); by vm_compute.
Qed.

Lemma reply_without_delimiter_witness :
  scoreCards (parsed (lit "**Security** 8/10")) = None.
Proof.
  exact (proj2 (reply_without_delimiter (lit "**Security** 8/10") eq_refl)).
Defined.

(** A reply of white space only has no section at all. *)
Theorem blank_reply_has_no_section review :
  truthy (trim review) = false -> parsed review = [].
Proof.
  intros Hblank.
  assert (includes review REVIEW_BREAK = false) as Hno.
  { destruct (includes review REVIEW_BREAK) eqn:E; [|done].
    apply includes_spec in E as (a & b & ->).
    assert (truthy (trim (a ++ REVIEW_BREAK ++ b)) = true) as H; [|congruence].
    apply truthy_trim. apply Exists_exists. exists 45%N.
    split; [|reflexivity].
    apply elem_of_app. right. apply elem_of_app. left. vm_compute. by left. }
  rewrite (parsed_single_part review Hno). by rewrite Hblank.
Qed.

Lemma blank_reply_witness : parsed (lit "   ") = [].
Proof. exact (blank_reply_has_no_section (lit "   ") eq_refl). Defined.

(** The colour and the emoji of a score agree: the grey colour and the
    clipboard stand for the absent score and for nothing else; a trophy or
    a check mark is never shown in orange or red; and a red score always
    shows the siren. *)
Theorem score_colour_and_emoji_agree (s : option N) :
  (getScoreColor s = lit "#888" <-> s = None)
  /\ (getScoreEmoji s = clipboardEmoji <-> s = None)
  /\ (getScoreEmoji s = trophyEmoji \/ getScoreEmoji s = checkEmoji ->
      getScoreColor s = lit "#22c55e" \/ getScoreColor s = lit "#eab308")
  /\ (getScoreColor s = lit "#ef4444" -> getScoreEmoji s = sirenEmoji).
Proof.
  destruct s as [n|]; simpl.
  - destruct (N.leb_spec 8 n), (N.leb_spec 6 n), (N.leb_spec 4 n),
      (N.leb_spec 9 n), (N.leb_spec 7 n), (N.leb_spec 5 n);
      try lia;
      (split_and!; [split; discriminate | split; discriminate
                   | intros [Hx|Hx]; (discriminate Hx || auto)
                   | intros Hx; (discriminate Hx || reflexivity)]).
  - split_and!; [done | done | intros [Hx|Hx]; discriminate Hx | discriminate].
Qed.

End MoreReview.

(** ** The results page: requests, views and the copy button *)
Section MorePolling.
Import JS DocViewer GeneratePage.

Lemma count_nil {A} (f : A -> bool) : count f [] = 0.
Proof. reflexivity. Qed.

Lemma count_cons {A} (f : A -> bool) x l :
  count f (x :: l) = (if f x then 1 else 0) + count f l.
Proof.
  unfold count. rewrite filter_cons.
  destruct (decide (f x)) as [H|H]; destruct (f x); simpl; done.
Qed.

Lemma count_snoc {A} (f : A -> bool) l x :
  count f (l ++ [x]) = count f l + (if f x then 1 else 0).
Proof.
  induction l as [|y l IH]; simpl app.
  - rewrite !count_cons, count_nil. lia.
  - rewrite !count_cons, IH. lia.
Qed.

Lemma step_taskId p e : taskId (step p e) = taskId p.
Proof.
  destruct e as [|i reply|reply|]; simpl.
  - unfold fire. by destruct (interval p).
  - unfold statusArrives. destruct (awaitingStatus p !! i); [|done].
    destruct reply as [| |data]; [done..|].
    by destruct (Status_eqb (status data) complete).
  - unfold resultArrives. by destruct (awaitingResult p).
  - unfold render. by destruct (Status_eqb _ _).
Qed.

Lemma step_requests id p e n :
  taskId p = id ->
  Forall (fun r => r = GetStatus id \/ r = GetResult id) (issued p) ->
  count isStatusRequest (issued p) <= n ->
  count isResultRequest (issued p) + length (awaitingStatus p)
    <= count isStatusRequest (issued p) ->
  awaitingResult p <= count isResultRequest (issued p) ->
  Forall (fun r => r = GetStatus id \/ r = GetResult id) (issued (step p e))
  /\ count isStatusRequest (issued (step p e))
     <= n + (if isFire e then 1 else 0)
  /\ count isResultRequest (issued (step p e))
       + length (awaitingStatus (step p e))
     <= count isStatusRequest (issued (step p e))
  /\ awaitingResult (step p e) <= count isResultRequest (issued (step p e)).
Proof.
  intros Hid Hall Hn Hres Haw.
  destruct e as [|i reply|reply|]; simpl.
  - unfold fire. destruct (interval p); simpl; [|split_and!; try done; lia].
    rewrite !count_snoc, length_app. simpl. split_and!; try lia.
    apply Forall_app. split; [done|]. constructor; [|done]. left. by rewrite Hid.
  - unfold statusArrives.
    destruct (awaitingStatus p !! i) as [h|] eqn:Hi;
      [|split_and!; try done; lia].
    assert (length (delete i (awaitingStatus p)) + 1
            = length (awaitingStatus p)) as Hlen.
    { pose proof (lookup_lt_Some _ _ _ Hi).
      rewrite length_delete by eauto. lia. }
    destruct reply as [| |data]; simpl; [split_and!; try done; lia..|].
    destruct (Status_eqb (status data) complete); simpl;
      [|split_and!; try done; lia].
    rewrite !count_snoc. simpl. split_and!; try lia.
    apply Forall_app. split; [done|]. constructor; [|done]. right. by rewrite Hid.
  - unfold resultArrives.
    destruct (awaitingResult p) eqn:E; simpl; split_and!; try done; lia.
  - unfold render. destruct (Status_eqb _ _); simpl; split_and!; try done; lia.
Qed.

(** From the first render on, under any order of firings, replies and
    renders: every request names the task of the page; there is at most
    one status request for each firing of the timer; every result request
    follows a status request of its own that was answered; and no callback
    awaits a result that was not asked for. *)
Theorem requests_of_the_poller taskId events :
  Forall (fun r => r = GetStatus taskId \/ r = GetResult taskId)
         (issued (run (mount taskId) events))
  /\ count isStatusRequest (issued (run (mount taskId) events))
     <= count isFire events
  /\ count isResultRequest (issued (run (mount taskId) events))
       + length (awaitingStatus (run (mount taskId) events))
     <= count isStatusRequest (issued (run (mount taskId) events))
  /\ awaitingResult (run (mount taskId) events)
     <= count isResultRequest (issued (run (mount taskId) events)).
Proof.
  enough (forall p n,
    GeneratePage.taskId p = taskId ->
    Forall (fun r => r = GetStatus taskId \/ r = GetResult taskId) (issued p) ->
    count isStatusRequest (issued p) <= n ->
    count isResultRequest (issued p) + length (awaitingStatus p)
      <= count isStatusRequest (issued p) ->
    awaitingResult p <= count isResultRequest (issued p) ->
    Forall (fun r => r = GetStatus taskId \/ r = GetResult taskId)
           (issued (run p events))
    /\ count isStatusRequest (issued (run p events)) <= n + count isFire events
    /\ count isResultRequest (issued (run p events))
         + length (awaitingStatus (run p events))
       <= count isStatusRequest (issued (run p events))
    /\ awaitingResult (run p events)
       <= count isResultRequest (issued (run p events))) as H.
  { apply (H (mount taskId) 0); simpl; try done. }
  induction events as [|e events IH]; intros p n Hid Hall Hn Hres Haw.
  - simpl. rewrite count_nil. split_and!; try done. lia.
  - destruct (step_requests taskId p e n Hid Hall Hn Hres Haw)
      as (H1 & H2 & H3 & H4).
    pose proof (IH (step p e) _ (eq_trans (step_taskId p e) Hid) H1 H2 H3 H4)
      as (G1 & G2 & G3 & G4).
    rewrite count_cons. simpl run. split_and!; try done. lia.
Qed.

(** Without a task id the effect sets no interval: whatever the events,
    the page stays as it was first rendered and no request is issued. *)
Theorem no_task_id_no_request events :
  run (mount []) events = mount []
  /\ issued (run (mount []) events) = [].
Proof.
  assert (run (mount []) events = mount []) as ->; [|done].
  apply run_atRest. by repeat split.
Qed.

Lemma terminal_atRest p :
  consistent p ->
  terminal (status (current p)) = true ->
  awaitingStatus p = [] -> awaitingResult p = 0 ->
  effectStatus p = status (current p) ->
  atRest p.
Proof.
  intros Hc Hterm Hs Hr He. split_and!; try done.
  destruct (interval p) as [h|] eqn:Hi; [|done].
  destruct (Hc h Hi) as [Hnot _]. congruence.
Qed.

(** Once a terminal status is shown and rendered and no callback awaits
    a reply, the page is final: whatever fires or arrives afterwards, it
    does not change and issues no request. *)
Theorem quiet_terminal_page_is_final taskId events1 events2 :
  terminal (status (current (run (mount taskId) events1))) = true ->
  awaitingStatus (run (mount taskId) events1) = [] ->
  awaitingResult (run (mount taskId) events1) = 0 ->
  effectStatus (run (mount taskId) events1)
  = status (current (run (mount taskId) events1)) ->
  run (mount taskId) (events1 ++ events2) = run (mount taskId) events1.
Proof.
  intros Hterm Hs Hr He. rewrite run_app. apply run_atRest.
  apply terminal_atRest; try done.
  apply run_consistent, mount_consistent.
Qed.

Lemma quiet_terminal_witness :
  run (mount (lit "t1"))
      ([Fire;
        StatusArrives 0
          (SOk {| status := error; progress := 40; message := lit "boom" |});
        Render]
       ++ [Fire; Render; StatusArrives 0 SThrows])
  = run (mount (lit "t1"))
        [Fire;
         StatusArrives 0
           (SOk {| status := error; progress := 40; message := lit "boom" |});
         Render].
Proof.
  apply (quiet_terminal_page_is_final (lit "t1")
    [Fire;
     StatusArrives 0
       (SOk {| status := error; progress := 40; message := lit "boom" |});
     Render]
    [Fire; Render; StatusArrives 0 SThrows]); by vm_compute.
Defined.

(** If the result request fails when [complete] is observed and no other
    callback is in flight, the page shows the loading notice and keeps
    showing it whatever fires afterwards: the result is not asked for
    again. *)
Theorem failed_result_is_not_retried taskId events1 events2 :
  status (current (run (mount taskId) events1)) = complete ->
  docs (run (mount taskId) events1) = None ->
  awaitingStatus (run (mount taskId) events1) = [] ->
  awaitingResult (run (mount taskId) events1) = 0 ->
  effectStatus (run (mount taskId) events1) = complete ->
  view (run (mount taskId) (events1 ++ events2)) = LoadingResults
  /\ issued (run (mount taskId) (events1 ++ events2))
     = issued (run (mount taskId) events1).
Proof.
  intros Hst Hdocs Hs Hr He.
  assert (run (mount taskId) (events1 ++ events2)
          = run (mount taskId) events1) as ->.
  { rewrite run_app. apply run_atRest.
    apply terminal_atRest; try done.
    - apply run_consistent, mount_consistent.
    - by rewrite Hst.
    - congruence. }
  split; [|done]. unfold view. by rewrite Hst, Hdocs.
Qed.

Lemma failed_result_witness :
  view (run (mount (lit "t1"))
            ([Fire;
              StatusArrives 0
                (SOk {| status := complete; progress := 100;
                        message := [] |});
              Render; ResultArrives RNotOk]
             ++ [Fire; Render; ResultArrives RThrows]))
  = LoadingResults.
Proof.
  refine (proj1 (failed_result_is_not_retried (lit "t1")
    [Fire;
     StatusArrives 0
       (SOk {| status := complete; progress := 100; message := [] |});
     Render; ResultArrives RNotOk]
    [Fire; Render; ResultArrives RThrows] _ _ _ _ _)); by vm_compute.
Defined.

Lemma step_awaitingResult p e :
  0 < awaitingResult (step p e) ->
  0 < awaitingResult p
  \/ exists i data, e = StatusArrives i (SOk data) /\ status data = complete.
Proof.
  destruct e as [|i reply|reply|]; simpl.
  - unfold fire. destruct (interval p); auto.
  - unfold statusArrives. destruct (awaitingStatus p !! i); [|auto].
    destruct reply as [| |data]; [auto..|].
    destruct (Status_eqb (status data) complete) eqn:E; [|auto].
    intros _. right. exists i, data. split; [done|].
    by apply Status_eqb_eq.
  - unfold resultArrives. destruct (awaitingResult p) eqn:E; simpl.
    + rewrite E. lia.
    + intros _. left. lia.
  - unfold render. destruct (Status_eqb _ _); auto.
Qed.

Lemma step_docs p e d :
  docs (step p e) = Some d ->
  docs p = Some d \/ (e = ResultArrives (ROk d) /\ 0 < awaitingResult p).
Proof.
  destruct e as [|i reply|reply|]; simpl.
  - unfold fire. destruct (interval p); auto.
  - unfold statusArrives. destruct (awaitingStatus p !! i); [|auto].
    destruct reply as [| |data]; [auto..|].
    destruct (Status_eqb (status data) complete); auto.
  - unfold resultArrives. destruct (awaitingResult p); simpl; [tauto|].
    destruct reply as [| |result]; [auto..|].
    intros [= ->]. right. split; [done | lia].
  - unfold render. destruct (Status_eqb _ _); auto.
Qed.

Lemma run_awaitingResult p events :
  0 < awaitingResult (run p events) ->
  0 < awaitingResult p
  \/ exists i data,
       StatusArrives i (SOk data) ∈ events /\ status data = complete.
Proof.
  revert p. induction events as [|e events IH]; intros p; simpl; [auto|].
  intros H. destruct (IH _ H) as [H1 | (i & data & Hin & Hd)].
  - destruct (step_awaitingResult p e H1) as [? | (i & data & -> & Hd)];
      [auto|].
    right. exists i, data. split; [by left | done].
  - right. exists i, data. split; [by right | done].
Qed.

Lemma run_docs p events d :
  docs (run p events) = Some d ->
  docs p = Some d
  \/ (ResultArrives (ROk d) ∈ events
      /\ (0 < awaitingResult p
          \/ exists i data,
               StatusArrives i (SOk data) ∈ events /\ status data = complete)).
Proof.
  revert p. induction events as [|e events IH]; intros p; simpl; [auto|].
  intros H. destruct (IH _ H) as [H1 | (Hin & Hwait)].
  - destruct (step_docs p e d H1) as [? | (-> & Hw)]; [auto|].
    right. split; [by left | auto].
  - right. split; [by right|].
    destruct Hwait as [Hw | (i & data & Hi & Hd)].
    + destruct (step_awaitingResult p e Hw) as [? | (i & data & -> & Hd)];
        [auto|].
      right. exists i, data. split; [by left | done].
    + right. exists i, data. split; [by right | done].
Qed.

(** Under any order of firings, replies and renders: whenever the page
    shows the documents view, the status shown is [complete], the
    documents are those of a result reply that arrived with an [ok]
    response, and some status reply had said [complete]. *)
Theorem shown_documents_were_fetched taskId events d :
  view (run (mount taskId) events) = DocsView d ->
  status (current (run (mount taskId) events)) = complete
  /\ ResultArrives (ROk d) ∈ events
  /\ exists i data,
       StatusArrives i (SOk data) ∈ events /\ status data = complete.
Proof.
  intros Hv. unfold view in Hv.
  destruct (status (current (run (mount taskId) events))) eqn:Hst;
    try discriminate.
  destruct (docs (run (mount taskId) events)) as [d'|] eqn:Hd;
    [|discriminate].
  injection Hv as ->. split; [done|].
  apply run_docs in Hd as [Hd | (Hin & [Hw | Hc])].
  - discriminate Hd.
  - simpl in Hw. lia.
  - done.
Qed.

Lemma shown_documents_witness :
  status (current
    (run (mount (lit "t1"))
         [Fire;
          StatusArrives 0
            (SOk {| status := complete; progress := 100; message := [] |});
          Render; ResultArrives (ROk sampleDocs)])) = complete.
Proof.
  refine (proj1 (shown_documents_were_fetched (lit "t1")
    [Fire;
     StatusArrives 0
       (SOk {| status := complete; progress := 100; message := [] |});
     Render; ResultArrives (ROk sampleDocs)]
    sampleDocs _)).
  by vm_compute.
Defined.

(** In the progress view, for a status other than [error], a step is
    marked done exactly when it lies before the status shown and current
    exactly when it is the status shown; while the task is pending no
    step is marked. *)
Theorem step_marks shown step :
  shown <> error -> step ∈ stepOrder ->
  (stepMark shown step = Done <-> stage step < stage shown)
  /\ (stepMark shown step = Current <-> step = shown)
  /\ (shown = pending -> stepMark shown step = Upcoming).
Proof.
  intros Hs Hstep.
  assert (step = cloning \/ step = analyzing \/ step = generating
          \/ step = complete) as Hcases.
  { unfold stepOrder in Hstep.
    repeat (apply elem_of_cons in Hstep as [->|Hstep]; [tauto|]).
    inversion Hstep. }
  destruct shown; try done;
    destruct Hcases as [-> | [-> | [-> | ->]]]; cbn;
    (split_and!; [split; (discriminate || lia || done)
                 | split; (discriminate || done)
                 | (discriminate || done)]).
Qed.

Lemma step_marks_witness :
  stepMark generating analyzing = Done <-> stage analyzing < stage generating.
Proof.
  refine (proj1 (step_marks generating analyzing _ _)).
  - discriminate.
  - right. left.
Defined.

(** The copy button copies exactly the text that the raw-markdown tab
    shows; when the markdown is missing the tab shows its placeholder and
    nothing is copied. *)
Theorem copy_matches_markdown_tab (d : GeneratedDocs) :
  match copyMarkdown (Some d) with
  | Some text => renderTab markdownTab d = [Pre text] /\ text <> []
  | None => renderTab markdownTab d = [Pre (lit "Markdown not available.")]
            /\ present (full_markdown d) = false
  end
  /\ copyMarkdown None = None.
Proof.
  split; [|done]. unfold copyMarkdown. simpl.
  destruct (full_markdown d) as [s|]; simpl; [|done].
  destruct (truthy s) eqn:E; [|done].
  split; [done|]. by apply truthy_true_iff.
Qed.

End MorePolling.

(** ** The landing page: what a submission leaves *)
Section MoreSubmit.
Import JS Home.

Lemma reference_with_host_witness :
  requests (handleSubmit
              {| repoUrl := lit " https://github.com/owner/repo ";
                 loading := false; error := [] |}
              (fun _ => NotOk))
  = [ {| url := lit "/api/generate"; method := lit "POST";
         repo_url := lit "https://github.com/owner/repo" |} ].
Proof.
  exact (reference_with_host_is_submitted
           {| repoUrl := lit " https://github.com/owner/repo ";
              loading := false; error := [] |}
           (fun _ => NotOk) eq_refl).
Defined.

(** The handler navigates only after the server created the task, to the
    page of that task, with the error cleared; after a request that
    failed it navigates nowhere, enables the form again and leaves an
    error message that is not empty. *)
Theorem submission_outcome st server :
  (forall path, pushed (handleSubmit st server) = Some path ->
     exists req task_id,
       server req = Created task_id
       /\ requests (handleSubmit st server) = [req]
       /\ path = lit "/generate/" ++ task_id
       /\ error (state (handleSubmit st server)) = [])
  /\ (pushed (handleSubmit st server) = None ->
      requests (handleSubmit st server) <> [] ->
      loading (state (handleSubmit st server)) = false
      /\ error (state (handleSubmit st server)) <> []).
Proof.
  unfold handleSubmit.
  destruct (truthy (trim (repoUrl st))); cbn [negb];
    [|split; [discriminate | done]].
  destruct (includes (repoUrl st) (lit "github.com")); cbn [negb];
    [|split; [discriminate | done]].
  destruct (server _) as [msg| |task_id] eqn:Hsrv;
    unfold failed; cbn [pushed requests state error loading].
  - split; [discriminate|]. intros _ _. split; [done|].
    unfold errorText. by destruct msg.
  - split; [discriminate | done].
  - split; [|discriminate]. intros path [= <-].
    eexists _, task_id. split_and!; [exact Hsrv | done..].
Qed.

End MoreSubmit.

(** ** The complexity dashboard: the widest bar *)
Section MoreBars.
Import JS ComplexityDashboard.

Lemma barWidth_mono dist l1 l2 :
  (lines l1 <= lines l2)%Z -> (barWidth dist l1 <= barWidth dist l2)%Q.
Proof.
  intros Hle. unfold barWidth.
  destruct (maxLines_spec dist) as (Hone & _ & _).
  destruct (maxLines dist) as [|m|m]; try lia.
  unfold Qle, Qdiv, Qmult, Qinv, inject_Z. simpl. nia.
Qed.

(** When some language has at least one line, a language with the most
    lines has a bar of full width, and no bar is wider. *)
Theorem widest_bar_is_full dist :
  (exists l, l ∈ dist /\ (1 <= lines l)%Z) ->
  exists l, l ∈ dist
    /\ (barWidth dist l == 100)%Q
    /\ forall l', l' ∈ dist -> (barWidth dist l' <= barWidth dist l)%Q.
Proof.
  intros (l0 & Hl0 & Hpos).
  destruct (maxLines_spec dist) as (Hone & Hmax & Hwhich).
  assert (exists l, l ∈ dist /\ lines l = maxLines dist) as (l & Hl & Heq).
  { destruct Hwhich as [H1|H]; [|done].
    exists l0. split; [done|]. specialize (Hmax l0 Hl0). lia. }
  exists l. split_and!; [done | |].
  - unfold barWidth. rewrite Heq.
    destruct (maxLines dist) as [|m|m]; try lia.
    unfold Qeq, Qdiv, Qmult, Qinv, inject_Z. simpl. lia.
  - intros l' Hl'. apply barWidth_mono. rewrite Heq. by apply Hmax.
Qed.

Lemma widest_bar_witness :
  exists l,
    l ∈ [ {| language := lit "Python"; lines := 300; percentage := 75 |};
          {| language := lit "Go"; lines := 100; percentage := 25 |} ]
    /\ (barWidth
          [ {| language := lit "Python"; lines := 300; percentage := 75 |};
            {| language := lit "Go"; lines := 100; percentage := 25 |} ] l
        == 100)%Q.
Proof.
  destruct (widest_bar_is_full
    [ {| language := lit "Python"; lines := 300; percentage := 75 |};
      {| language := lit "Go"; lines := 100; percentage := 25 |} ])
    as (l & Hl & Hfull & _).
  - exists {| language := lit "Go"; lines := 100; percentage := 25 |}.
    split; [right; left | simpl; lia].
  - exists l. by split.
Defined.

End MoreBars.

(** ** The health gauge: which grades get a colour string, and the arc *)
Section MoreGauge.
Import JS HealthScoreGauge.

Lemma gradeColors_entries :
  map_Forall (fun k s => truthy s = true /\ Object_prototype !! k = None)
             gradeColors.
Proof.
  unfold gradeColors. simpl list_to_map.
  repeat (apply map_Forall_insert_2; [by vm_compute|]).
  apply map_Forall_empty.
Qed.

(** The colour is a string exactly for the grades that do not name a
    property inherited from [Object.prototype]; it is then the colour of
    the table for a grade of the table, and the fallback otherwise. *)
Theorem color_is_a_string_iff (grade : jsstring) :
  ((exists s, color grade = VString s) <-> Object_prototype !! grade = None)
  /\ (Object_prototype !! grade = None ->
      color grade = VString (default (lit "#888") (gradeColors !! grade))).
Proof.
  unfold color, get.
  destruct (gradeColors !! grade) as [s|] eqn:Hown.
  - destruct (gradeColors_entries grade s Hown) as [Hs Hp].
    simpl. rewrite Hs. split; [|done]. split; eauto.
  - destruct (Object_prototype !! grade) as [v|] eqn:Hproto; simpl.
    + assert ((exists n, v = VFunction n) \/ v = VObject) as Hv.
      { revert Hproto. unfold Object_prototype.
        generalize grade v. apply map_Forall_lookup.
        simpl list_to_map.
        repeat (apply map_Forall_insert_2; [eauto|]).
        apply map_Forall_empty. }
      destruct Hv as [[n ->] | ->]; simpl;
        (split; [split; [intros [s Hs]; discriminate | discriminate]
                | discriminate]).
    + split; [|done]. split; eauto.
Qed.

(** For a score from 0 to 100 the offset of the arc lies between 0 and
    the circumference, it is the whole circumference at 0 and nothing at
    100, and a higher score never has a larger offset. *)
Theorem offset_bounds (score : Q) :
  (0 <= score)%Q -> (score <= 100)%Q ->
  (0 <= offset score)%Q /\ (offset score <= circumference)%Q
  /\ (offset 0 == circumference)%Q /\ (offset 100 == 0)%Q
  /\ (forall higher, (score <= higher)%Q ->
                     (offset higher <= offset score)%Q).
Proof.
  intros H0 H100. unfold offset.
  assert (0 < circumference)%Q as Hc by reflexivity.
  generalize dependent circumference. intros c Hc.
  unfold Qdiv. change (/ 100)%Q with (1 # 100)%Q.
  split_and!; try nra. intros higher Hh. nra.
Qed.

Lemma offset_bounds_witness :
  (0 <= offset 75)%Q /\ (offset 75 <= circumference)%Q.
Proof.
  destruct (offset_bounds 75) as (Hlo & Hhi & _).
  - vm_compute. discriminate.
  - vm_compute. discriminate.
  - by split.
Defined.

End MoreGauge.

(** ** The badge wall: the glow of a badge and the copied text *)
Section Badges.
Import JS BadgeWall.

Lemma hexval_digit c d :
  hexval c = Some d ->
  (0 <= d <= 15)%Z
  /\ ((48 <= c <= 57)%N \/ (97 <= c <= 102)%N \/ (65 <= c <= 70)%N).
Proof.
  unfold hexval.
  destruct (N.leb_spec 48 c), (N.leb_spec c 57), (N.leb_spec 97 c),
    (N.leb_spec c 102), (N.leb_spec 65 c), (N.leb_spec c 70);
    simpl; intros [= <-]; lia.
Qed.

Lemma hexDigits_bound s acc n :
  hexDigits s acc = Some n -> (0 <= default 0 acc)%Z ->
  (0 <= n < (default 0 acc + 1) * 16 ^ Z.of_nat (length s))%Z.
Proof.
  revert acc. induction s as [|c s IH]; intros acc; simpl hexDigits.
  - intros -> Hacc. cbn [length default from_option] in *. unfold id in *.
    change (Z.of_nat 0) with 0%Z. rewrite Z.pow_0_r. lia.
  - assert (0 < 16 ^ Z.of_nat (length s))%Z as Hpow by (apply Z.pow_pos_nonneg; lia).
    replace (16 ^ Z.of_nat (length (c :: s)))%Z
      with (16 * 16 ^ Z.of_nat (length s))%Z
      by (cbn [length]; rewrite Nat2Z.inj_succ, Z.pow_succ_r; lia).
    destruct (hexval c) as [d|] eqn:Hd.
    + apply hexval_digit in Hd as [Hd _]. intros H Hacc.
      set (a := default 0%Z acc) in *.
      apply IH in H; cbn [default from_option] in *; unfold id in *; [|lia].
      nia.
    + intros -> Hacc. cbn [default from_option] in *. unfold id in *. nia.
Qed.

Lemma trimStart_length (s : jsstring) : length (trimStart s) <= length s.
Proof.
  induction s as [|c s IH]; simpl; [done|].
  destruct (is_ws c); simpl; lia.
Qed.

(** What [parseInt(s, 16)] can give on a string of a given length. *)
Lemma parseInt16_bound s z :
  parseInt16 s = Some z ->
  (- 16 ^ (Z.of_nat (length s) - 1) < z < 16 ^ Z.of_nat (length s))%Z.
Proof.
  unfold parseInt16. pose proof (trimStart_length s) as Hlen.
  set (s1 := trimStart s) in *.
  assert (forall s2, length s2 <= length s ->
    forall n,
      hexDigits match s2 with
                | a :: b :: r =>
                    if ((a =? 48) && ((b =? 120) || (b =? 88)))%N then r
                    else s2
                | _ => s2
                end None = Some n ->
      (0 <= n < 16 ^ Z.of_nat (length s2))%Z) as Hdigits.
  { intros s2 _ n H.
    assert (exists s3, hexDigits s3 None = Some n /\ length s3 <= length s2)
      as (s3 & H3 & Hl3).
    { destruct s2 as [|a [|b r]]; [eauto..|].
      destruct ((a =? 48) && ((b =? 120) || (b =? 88)))%N; [|eauto].
      exists r. split; [done | simpl; lia]. }
    apply hexDigits_bound in H3; [|done]. simpl in H3.
    assert (16 ^ Z.of_nat (length s3) <= 16 ^ Z.of_nat (length s2))%Z
      by (apply Z.pow_le_mono_r; lia).
    lia. }
  assert ((16 ^ Z.of_nat (length s)
           = 16 * 16 ^ (Z.of_nat (length s) - 1))%Z
          \/ length s = 0%nat) as Hpow.
  { destruct (length s) as [|k]; [by right | left].
    replace (Z.of_nat (S k)) with (Z.succ (Z.of_nat k)) by lia.
    rewrite Z.pow_succ_r by lia. do 2 f_equal. lia. }
  assert ((0 < 16 ^ (Z.of_nat (length s) - 1))%Z \/ length s = 0%nat)
    as Hpos.
  { destruct (length s) as [|k]; [by right | left].
    apply Z.pow_pos_nonneg; lia. }
  assert (forall (r : jsstring) (n : Z), length r < length s ->
            (0 <= n < 16 ^ Z.of_nat (length r))%Z ->
            (n < 16 ^ (Z.of_nat (length s) - 1))%Z) as Hshort.
  { intros r n Hr Hn.
    assert (16 ^ Z.of_nat (length r) <= 16 ^ (Z.of_nat (length s) - 1))%Z
      by (apply Z.pow_le_mono_r; lia).
    lia. }
  destruct s1 as [|c r] eqn:E1.
  - destruct (hexDigits [] None) eqn:E; [|discriminate]. discriminate.
  - simpl in Hlen.
    destruct (c =? 45)%N; [|destruct (c =? 43)%N].
    + destruct (hexDigits _ None) as [n|] eqn:E; [|discriminate].
      apply Hdigits in E; [|lia]. intros [= <-].
      pose proof (Hshort r n ltac:(lia) E). lia.
    + destruct (hexDigits _ None) as [n|] eqn:E; [|discriminate].
      apply Hdigits in E; [|lia]. intros [= <-].
      pose proof (Hshort r n ltac:(lia) E). lia.
    + destruct (hexDigits _ None) as [n|] eqn:E; [|discriminate].
      apply (Hdigits (c :: r)) in E; [|simpl; lia]. intros [= <-].
      assert (16 ^ Z.of_nat (length (c :: r)) <= 16 ^ Z.of_nat (length s))%Z
        by (apply Z.pow_le_mono_r; simpl; lia).
      lia.
Qed.

Lemma slice_length (s : jsstring) i : length (slice s i (i + 2)) <= 2.
Proof. unfold slice. rewrite length_take. lia. Qed.

(** Whatever the colour string, each number of the glow is an integer
    from -15 to 255 other than zero. *)
Theorem channel_range color i :
  (channel color i <> 0 /\ -15 <= channel color i <= 255)%Z.
Proof.
  unfold channel. pose proof (slice_length color i) as Hlen.
  destruct (parseInt16 (slice color i (i + 2))) as [z|] eqn:E; [|lia].
  apply parseInt16_bound in E.
  assert (16 ^ (Z.of_nat (length (slice color i (i + 2))) - 1) <= 16
          /\ 16 ^ Z.of_nat (length (slice color i (i + 2))) <= 256)%Z
    as [H1 H2].
  { destruct (length (slice color i (i + 2))) as [|[|[|k]]];
      simpl; try lia. }
  destruct (Z.eqb_spec z 0); lia.
Qed.

Lemma hexval_plain c d :
  hexval c = Some d ->
  is_ws c = false /\ (c =? 45)%N = false /\ (c =? 43)%N = false
  /\ (c =? 120)%N = false /\ (c =? 88)%N = false.
Proof.
  intros H. apply hexval_digit in H as [_ Hc].
  unfold is_ws, is_line_terminator.
  repeat match goal with
         | |- context [(?a =? ?b)%N] =>
             destruct (N.eqb_spec a b); [lia|]
         | |- context [(?a <=? ?b)%N] =>
             destruct (N.leb_spec a b)
         end; simpl; try done; lia.
Qed.

(** A channel written as two hexadecimal digits glows with its value,
    except that the value zero is replaced by 100. *)
Theorem channel_of_hex_digits color i a b x y :
  slice color i (i + 2) = [a; b] ->
  hexval a = Some x -> hexval b = Some y ->
  channel color i
  = (if (16 * x + y =? 0)%Z then 100 else 16 * x + y)%Z.
Proof.
  intros Hs Ha Hb. unfold channel, parseInt16. rewrite Hs.
  destruct (hexval_plain a x Ha) as (Hws & Hm & Hp & _).
  destruct (hexval_plain b y Hb) as (_ & _ & _ & Hx & HX).
  cbn [trimStart]. rewrite Hws, Hm, Hp, Hx, HX.
  rewrite andb_false_r. cbn [hexDigits]. rewrite Ha. cbn [hexDigits].
  rewrite Hb. cbn [default from_option]. unfold id.
  replace (1 * (16 * (16 * 0 + x) + y))%Z with (16 * x + y)%Z by lia.
  done.
Qed.

Lemma channel_of_hex_digits_witness :
  glow {| label := lit "build"; message := lit "passing";
          color := lit "ff0080"; markdown := [] |}
  = (255, 100, 128)%Z.
Proof.
  unfold glow. cbn [color].
  rewrite (channel_of_hex_digits (lit "ff0080") 0 102 102 15 15
             eq_refl eq_refl eq_refl).
  rewrite (channel_of_hex_digits (lit "ff0080") 2 48 48 0 0
             eq_refl eq_refl eq_refl).
  rewrite (channel_of_hex_digits (lit "ff0080") 4 56 48 8 0
             eq_refl eq_refl eq_refl).
  reflexivity.
Defined.

(** The text copied by Copy All Badges has one badge per line: split on
    the line feed it gives back the markdown of each badge, in order,
    when there is a badge and no markdown holds a line feed. *)
Theorem copied_badges_split_back (badges : list BadgeInfo) :
  badges <> [] ->
  Forall (fun b => 10%N ∉ markdown b) badges ->
  split [10%N] (copyAll badges) = markdown <$> badges.
Proof.
  intros Hne Hall. unfold copyAll. apply split_join_single.
  - by destruct badges.
  - by apply Forall_fmap.
Qed.

Lemma copied_badges_witness :
  split [10%N]
    (copyAll [ {| label := lit "a"; message := lit "b"; color := lit "4c1";
                  markdown := lit "![a](u1)" |};
               {| label := lit "c"; message := lit "d"; color := lit "red";
                  markdown := lit "![c](u2)" |} ])
  = [ lit "![a](u1)"; lit "![c](u2)" ].
Proof.
  apply (copied_badges_split_back
    [ {| label := lit "a"; message := lit "b"; color := lit "4c1";
         markdown := lit "![a](u1)" |};
      {| label := lit "c"; message := lit "d"; color := lit "red";
         markdown := lit "![c](u2)" |} ]).
  - discriminate.
  - repeat (apply List.Forall_cons || apply List.Forall_nil);
      cbn [markdown]; apply (bool_decide_unpack _); by vm_compute.
Defined.

End Badges.

(** ** The diagram: the id handed to the renderer *)
Section Diagram.
Import JS MermaidDiagram.

(** The id given to the renderer holds no colon; cleaning an id keeps its
    length and every unit other than a colon, and changes nothing in an
    id without a colon. *)
Theorem render_id_has_no_colon (id : jsstring) :
  (58%N ∉ renderId id)
  /\ length (sanitizeId id) = length id
  /\ (forall i c, id !! i = Some c -> c <> 58%N -> sanitizeId id !! i = Some c)
  /\ (58%N ∉ id -> sanitizeId id = id).
Proof.
  unfold renderId, sanitizeId. split_and!.
  - rewrite elem_of_app. intros [H|H].
    + revert H. apply (bool_decide_unpack _). by vm_compute.
    + apply list_elem_of_fmap in H as (c & Hc & _).
      destruct (N.eqb_spec c 58); lia.
  - apply length_fmap.
  - intros i c Hi Hc. rewrite list_lookup_fmap, Hi. simpl.
    by apply N.eqb_neq in Hc as ->.
  - intros Hno. induction id as [|c id IH]; [done|].
    apply not_elem_of_cons in Hno as [Hc Hid]. rewrite fmap_cons.
    rewrite IH by done.
    assert (c <> 58%N) as Hc' by congruence.
    by apply N.eqb_neq in Hc' as ->.
Qed.

End Diagram.
